(** * The GEO visibility-analysis pipeline of geo_engine.py and app.py

    A shallow embedding of [GEOAnalyzer] (mention detector, scenario
    generator, analysis task) and of the batch collection loop of the
    dashboard script, with the properties the specification states
    about them.

    Python values are modelled by [pyval]; a Python [str] is the list of
    its Unicode code points, a [dict] with string keys is a finite map,
    and code that may raise lives in the [outcome] monad. *)

From stdpp Require Import gmap list fin_maps.
From Stdlib Require Import NArith ZArith Ascii String Lia.
From Stdlib Require Floats.PrimFloat.

#[local] Unset Elimination Schemes.

(** ** Python values *)

(** A Python [str]: its code points, in order. *)
Abbreviation str := (list N).

(** The values [json.loads] can produce, which are also the values the
    result records are built from.  A Python [float] is an IEEE 754
    double. *)
Inductive pyval : Type :=
  | PNone
  | PBool (b : bool)
  | PInt (n : Z)
  | PFloat (f : PrimFloat.float)
  | PStr (s : str)
  | PList (l : list pyval)
  | PDict (d : gmap str pyval).

#[local] Set Elimination Schemes.

(** An ASCII literal of the source as a [str]. *)
Definition lit (s : string) : str :=
  List.map N_of_ascii (list_ascii_of_string s).
Arguments lit : simpl never.

(** [x] where [x] is [None] or a [str], as the record field it becomes. *)
Definition of_text (x : option str) : pyval :=
  match x with
  | None => PNone
  | Some s => PStr s
  end.

(** Python truth value of [None] or a [str]: [not x] is its negation. *)
Definition text_truth (x : option str) : bool :=
  match x with
  | Some (_ :: _) => true
  | _ => false
  end.

(** Python truth value of any value ([if res:]). *)
Definition truth (v : pyval) : bool :=
  match v with
  | PNone => false
  | PBool b => b
  | PInt n => negb (n =? 0)%Z
  | PFloat f => negb (PrimFloat.eqb f PrimFloat.zero)
  | PStr s => match s with [] => false | _ => true end
  | PList l => match l with [] => false | _ => true end
  | PDict d => negb (bool_decide (d = ∅))
  end.

(** ** Mention detector: [GEOAnalyzer.check_visibility_logic] *)

Module Detector.

Definition in_range (lo hi c : N) : bool :=
  ((lo <=? c) && (c <=? hi))%N.

(** The ranges of the character class [a-zA-Z0-9가-힣]:
    'a'..'z', 'A'..'Z', '0'..'9', U+AC00..U+D7A3. *)
Definition class_ranges : list (N * N) :=
  [ (97, 122); (65, 90); (48, 57); (0xAC00, 0xD7A3) ]%N.

Definition in_class (ranges : list (N * N)) (c : N) : bool :=
  existsb (fun r => in_range (fst r) (snd r) c) ranges.

(** The pattern [[^a-zA-Z0-9가-힣]] matches one character outside the
    class. *)
Definition pattern_matches (c : N) : bool :=
  negb (in_class class_ranges c).

(** [re.sub(pattern, '', s)] for a pattern that matches single
    characters: every matched character is replaced by the empty
    string. *)
Fixpoint re_sub_empty (matches : N -> bool) (s : str) : str :=
  match s with
  | [] => []
  | c :: s' =>
      if matches c then re_sub_empty matches s'
      else c :: re_sub_empty matches s'
  end.

(** [str.lower()] on the characters that survive the substitution:
    among ['a'..'z'], ['A'..'Z'], ['0'..'9'] and the Hangul syllables
    only ['A'..'Z'] have a lower-case form, 32 code points above. *)
Definition lower_char (c : N) : N :=
  if in_range 65 90 c then (c + 32)%N else c.

Definition lower (s : str) : str := List.map lower_char s.

(** The inner function [normalize]. *)
Definition normalize (s : str) : str :=
  lower (re_sub_empty pattern_matches s).

(** [a.startswith(b)], used by the substring search. *)
Fixpoint starts_with (b a : str) : bool :=
  match b, a with
  | [], _ => true
  | _ :: _, [] => false
  | x :: b', y :: a' => (x =? y)%N && starts_with b' a'
  end.

(** [needle in hay] on strings: [needle] occurs at some offset. *)
Fixpoint str_in (needle hay : str) : bool :=
  starts_with needle hay ||
  match hay with
  | [] => false
  | _ :: hay' => str_in needle hay'
  end.

Definition check_visibility_logic (text brand_name : option str) : bool :=
  if negb (text_truth text) || negb (text_truth brand_name) then false
  else
    match text, brand_name with
    | Some t, Some b =>
        let norm_text := normalize t in
        let norm_brand := normalize b in
        str_in norm_brand norm_text
    | _, _ => false
    end.

(** *** The detector as the specification words it *)

Definition ascii_letter (c : N) : Prop :=
  (97 <= c <= 122)%N \/ (65 <= c <= 90)%N.

Definition ascii_digit (c : N) : Prop := (48 <= c <= 57)%N.

Definition hangul_syllable (c : N) : Prop := (0xAC00 <= c <= 0xD7A3)%N.

Definition kept (c : N) : Prop :=
  ascii_letter c \/ ascii_digit c \/ hangul_syllable c.

#[global] Instance kept_dec (c : N) : Decision (kept c).
Proof. unfold kept, ascii_letter, ascii_digit, hangul_syllable. apply _. Defined.

(** Lower-casing, letter by letter. *)
Definition to_lower (c : N) : N :=
  if decide (65 <= c <= 90)%N then (c - 65 + 97)%N else c.

(** "strip every character that is not an ASCII letter, ASCII digit,
    or a Korean syllable block character; lower-case the remainder" *)
Definition normalize_spec (s : str) : str :=
  to_lower <$> filter kept s.

(** "a contiguous substring" *)
Definition substring (needle hay : str) : Prop :=
  exists pre suf, hay = pre ++ needle ++ suf.

End Detector.

(** ** Exceptions and item access *)

(** The exceptions of class [Exception] the pipeline meets.  [Failure]
    stands for whatever a remote call or [json.loads] raises (transport,
    quota, timeout, decoding), with its [str()]. *)
Inductive exn : Type :=
  | KeyError (key : str)
  | TypeError (msg : str)
  | IndexError (msg : str)
  | Failure (msg : str).

(** [str(e)]; for a [KeyError] the [repr] of a key that needs no
    escaping. *)
Definition exn_str (e : exn) : str :=
  match e with
  | KeyError key => lit "'" ++ key ++ lit "'"
  | TypeError msg => msg
  | IndexError msg => msg
  | Failure msg => msg
  end.

(** A computation that returns or raises. *)
Inductive outcome (A : Type) : Type :=
  | Ok (a : A)
  | Raise (e : exn).
Arguments Ok {A} a.
Arguments Raise {A} e.

#[global] Instance outcome_ret : MRet outcome := fun A a => Ok a.

#[global] Instance outcome_bind : MBind outcome := fun A B k c =>
  match c with
  | Ok a => k a
  | Raise e => Raise e
  end.

Definition type_name (v : pyval) : str :=
  match v with
  | PNone => lit "NoneType"
  | PBool _ => lit "bool"
  | PInt _ => lit "int"
  | PFloat _ => lit "float"
  | PStr _ => lit "str"
  | PList _ => lit "list"
  | PDict _ => lit "dict"
  end.

(** [obj[key]] for a string [key] (the messages are CPython's). *)
Definition getitem (obj : pyval) (key : str) : outcome pyval :=
  match obj with
  | PDict d =>
      match d !! key with
      | Some v => Ok v
      | None => Raise (KeyError key)
      end
  | PList _ =>
      Raise (TypeError (lit "list indices must be integers or slices, not str"))
  | PStr _ =>
      Raise (TypeError (lit "string indices must be integers, not 'str'"))
  | _ =>
      Raise (TypeError (lit "'" ++ type_name obj ++ lit "' object is not subscriptable"))
  end.

(** [obj[key] = v] for a string [key]; the object after the assignment. *)
Definition setitem (obj : pyval) (key : str) (v : pyval) : outcome pyval :=
  match obj with
  | PDict d => Ok (PDict (<[key := v]> d))
  | PList _ =>
      Raise (TypeError (lit "list indices must be integers or slices, not str"))
  | _ =>
      Raise (TypeError (lit "'" ++ type_name obj ++ lit "' object does not support item assignment"))
  end.

(** ** The analyzer: [GEOAnalyzer] *)

Module Engine.

(** What the two backends answer while one method of the analyzer
    runs.  Each field is a call of the source together with the
    attribute accesses (and, for the JSON calls, the [json.loads]) that
    follow it; each may raise.
    - [chat_completion question]:
      [openai_client.chat.completions.create(...).choices[0].message.content],
      a [str] or [None];
    - [generate_content question]:
      [gemini_model.generate_content(question).text];
    - [scoring_json brand_name raw_text actual_visibility]:
      [json.loads] of the reply to the scoring prompt, which
      interpolates these three values;
    - [scenario_json brand_name service_keyword]: [json.loads] of the
      reply to the scenario prompt. *)
Record backends : Type := {
  chat_completion : str -> outcome (option str);
  generate_content : str -> outcome str;
  scoring_json : str -> option str -> bool -> outcome pyval;
  scenario_json : str -> str -> outcome pyval
}.

Definition generate_scenarios (net : backends) (brand_name service_keyword : str)
    : outcome (pyval * pyval) :=
  data ← scenario_json net brand_name service_keyword;
  queries ← getitem data (lit "queries");
  strategy ← getitem data (lit "strategy");
  Ok (queries, strategy).

(** Line 116, the dict
    [{"q_idx": q_idx, "model_type": model_type, "raw": raw_text, "analysis": analysis_data}]. *)
Definition success_dict (q_idx : Z) (model_type : str) (raw_text : option str)
    (analysis_data : pyval) : gmap str pyval :=
  <[lit "q_idx" := PInt q_idx]>
    (<[lit "model_type" := PStr model_type]>
      (<[lit "raw" := of_text raw_text]>
        (<[lit "analysis" := analysis_data]> ∅))).

(** Line 118, the dict
    [{"q_idx": q_idx, "model_type": model_type, "error": str(e)}]. *)
Definition error_dict (q_idx : Z) (model_type : str) (e : exn) : gmap str pyval :=
  <[lit "q_idx" := PInt q_idx]>
    (<[lit "model_type" := PStr model_type]>
      (<[lit "error" := PStr (exn_str e)]> ∅)).

(** Lines 99 to 116: the detector's verdict, the scoring call, the
    overwrite of [mentioned] and the success record. *)
Definition score (net : backends) (model_type brand_name : str) (q_idx : Z)
    (raw_text : option str) : outcome pyval :=
  let actual_visibility :=
    Detector.check_visibility_logic raw_text (Some brand_name) in
  analysis_data ← scoring_json net brand_name raw_text actual_visibility;
  analysis_data ← setitem analysis_data (lit "mentioned") (PBool actual_visibility);
  Ok (PDict (success_dict q_idx model_type raw_text analysis_data)).

(** The body of the [try]: [Ok v] when it returns [v], [Raise e] when
    an exception reaches the handler. *)
Definition analyze_task_body (gemini_available : bool) (net : backends)
    (model_type brand_name question : str) (q_idx : Z) : outcome pyval :=
  if bool_decide (model_type = lit "GPT") then
    raw_text ← chat_completion net question;
    score net model_type brand_name q_idx raw_text
  else
    if negb gemini_available then Ok PNone
    else
      raw_text ← generate_content net question;
      score net model_type brand_name q_idx (Some raw_text).

Definition analyze_task (gemini_available : bool) (net : backends)
    (model_type brand_name question : str) (q_idx : Z) : pyval :=
  match analyze_task_body gemini_available net model_type brand_name question q_idx with
  | Ok res => res
  | Raise e => PDict (error_dict q_idx model_type e)
  end.

(** *** Result shapes, as the specification words them *)



(** "an error record populated with an error message and no
    rawText/analysis" *)
Definition error_record (res : pyval) : Prop :=
  exists d msg,
    res = PDict d /\ d !! lit "error" = Some (PStr msg) /\
    d !! lit "raw" = None /\ d !! lit "analysis" = None.

(** The task obtained the answer [raw_text] from the engine
    [model_type] names: the chat backend for ["GPT"], the generative
    backend, when it is available, for any other name. *)
Definition answered (gemini_available : bool) (net : backends)
    (model_type question : str) (raw_text : option str) : Prop :=
  (model_type = lit "GPT" /\ chat_completion net question = Ok raw_text) \/
  (model_type <> lit "GPT" /\ gemini_available = true /\
   exists s, generate_content net question = Ok s /\ raw_text = Some s).

(** "fails ... if either key is absent or queries is not a sequence" *)
Definition malformed_response (data : gmap str pyval) : Prop :=
  data !! lit "strategy" = None \/ data !! lit "queries" = None \/
  (forall q, data !! lit "queries" = Some q -> forall l, q <> PList l).

End Engine.

(** ** The batch of the dashboard script: app.py, lines 105 to 142 *)

Module App.
Import Engine.

(** [highlight(text, brand)]: an empty brand returns the text at once;
    otherwise [pattern.sub] needs a [str].  The markup it builds only
    goes to the display, so the model keeps whether it raises. *)
Definition highlight (text : pyval) (brand : str) : outcome unit :=
  if negb (text_truth (Some brand)) then Ok ()
  else
    match text with
    | PStr _ => Ok ()
    | _ =>
        Raise (TypeError (lit "expected string or bytes-like object, got '"
                          ++ type_name text ++ lit "'"))
    end.

(** [slots[q_idx][m_type]]: [slots] is a list with one dict per query,
    each with the keys ["GPT"] and ["Gemini"].  A record of
    [analyze_task] carries the [int] and the [str] it was called with;
    for a key that is not a [str] the model raises [KeyError] on the name
    of the key's type, where Python raises it on the key (or a
    [TypeError] when the key cannot be hashed). *)
Definition slot_lookup (n_slots : nat) (q_idx m_type : pyval) : outcome unit :=
  let index :=
    match q_idx with
    | PInt i => Some i
    | PBool b => Some (if b then 1 else 0)%Z
    | _ => None
    end in
  match index with
  | Some i =>
      if ((- Z.of_nat n_slots <=? i) && (i <? Z.of_nat n_slots))%Z then
        match m_type with
        | PStr m =>
            if bool_decide (m = lit "GPT") || bool_decide (m = lit "Gemini")
            then Ok ()
            else Raise (KeyError m)
        | _ => Raise (KeyError (type_name m_type))
        end
      else Raise (IndexError (lit "list index out of range"))
  | None =>
      Raise (TypeError (lit "list indices must be integers or slices, not "
                        ++ type_name q_idx))
  end.

(** Lines 131 to 140: the slot of the record is looked up and the
    record is drawn into it. *)
Definition render (n_slots : nat) (brand_in : str) (res : pyval) : outcome unit :=
  q_idx ← getitem res (lit "q_idx");
  m_type ← getitem res (lit "model_type");
  _ ← slot_lookup n_slots q_idx m_type;
  ana ← getitem res (lit "analysis");
  _ ← getitem ana (lit "mentioned");
  _ ← getitem ana (lit "solution_fit");
  raw ← getitem res (lit "raw");
  _ ← highlight raw brand_in;
  Ok ().

(** The loop [for future in as_completed(futures)] over the results in
    the order the futures complete.  The state is the list [all_res];
    an exception leaves the loop, and the script, with the list as it
    is at that point. *)
Fixpoint collect (n_slots : nat) (brand_in : str) (all_res : list pyval)
    (completed : list pyval) : list pyval * option exn :=
  match completed with
  | [] => (all_res, None)
  | res :: rest =>
      if truth res then
        let all_res := all_res ++ [res] in
        match render n_slots brand_in res with
        | Ok _ => collect n_slots brand_in all_res rest
        | Raise e => (all_res, Some e)
        end
      else collect n_slots brand_in all_res rest
  end.

(** The futures of the comprehension
    [for i in range(len(queries)) for m in ["GPT", "Gemini"]], in
    submission order. *)
Definition tasks (queries : list str) : list (nat * str) :=
  i ← seq 0 (List.length queries);
  m ← [lit "GPT"; lit "Gemini"];
  [(i, m)].

(** The comprehension does not bind [q]: it reads the variable the loop
    of line 106 left behind, the last query. *)
Definition leftover_q (queries : list str) : str := List.last queries [].

(** What the future of task [(i, m)] holds.  [net i m] is what the
    backends answer to this task. *)
Definition task_result (gemini_available : bool) (net : nat -> str -> backends)
    (brand_in : str) (queries : list str) (t : nat * str) : pyval :=
  analyze_task gemini_available (net t.1 t.2) t.2 brand_in
    (leftover_q queries) (Z.of_nat t.1).

(** Lines 122 to 141, for the order [completion] in which
    [as_completed] yields the futures (a permutation of [tasks]). *)
Definition run_batch (gemini_available : bool) (net : nat -> str -> backends)
    (brand_in : str) (queries : list str) (completion : list (nat * str))
    : list pyval * option exn :=
  collect (List.length queries) brand_in []
    (task_result gemini_available net brand_in queries <$> completion).

(** Line 142, [st.session_state.results = all_res], is reached only
    when the loop ends without an exception. *)
Definition session_results (run : list pyval * option exn) : option (list pyval) :=
  match run.2 with
  | None => Some run.1
  | Some _ => None
  end.

(** The number of engines that can answer. *)
Definition available_engines (gemini_available : bool) : nat :=
  if gemini_available then 2 else 1.

(** The tasks whose engine can answer: every ["GPT"] task, and the
    others when the generative backend is available. *)
Definition runs (gemini_available : bool) (t : nat * str) : bool :=
  bool_decide (t.2 = lit "GPT") || gemini_available.

(** The pair (engine, question index) a record is attributed to. *)
Definition attribution (res : pyval) : option (pyval * pyval) :=
  match res with
  | PDict d =>
      m ← d !! lit "model_type"; i ← d !! lit "q_idx"; Some (m, i)
  | _ => None
  end.

End App.

(** ** Sample inputs *)

Module Samples.
Import Engine.

(** "!!!" *)
Definition bangs : str := lit "!!!".

(** "TOSS 앱을 이용하세요" *)
Definition toss_answer : str :=
  (lit "TOSS " ++ [0xC571; 0xC744; 32; 0xC774; 0xC6A9; 0xD558; 0xC138; 0xC694])%N.

(** A scoring reply that denies the mention and scores the fit 11. *)
Definition denying_reply : gmap str pyval :=
  <[lit "mentioned" := PBool false]>
    (<[lit "solution_fit" := PInt 11]>
      (<[lit "fit_reason" := PStr (lit "not named")]>
        (<[lit "summary" := PStr (lit "generic advice")]> ∅))).

(** A scenario reply whose [queries] is the number 5. *)
Definition odd_scenario : gmap str pyval :=
  <[lit "strategy" := PStr (lit "target the need")]>
    (<[lit "queries" := PInt 5]> ∅).

(** A scenario reply without [strategy]. *)
Definition partial_scenario : gmap str pyval :=
  <[lit "queries" := PList [PStr (lit "q0")]]> ∅.

(** Backends that answer every question with [toss_answer] and every
    scoring prompt with [denying_reply]. *)
Definition steady (scenario : gmap str pyval) : backends :=
  {| chat_completion := fun _ => Ok (Some toss_answer);
     generate_content := fun _ => Ok toss_answer;
     scoring_json := fun _ _ _ => Ok (PDict denying_reply);
     scenario_json := fun _ _ => Ok (PDict scenario) |}.

(** The same backends with a transport error on the chat call. *)
Definition broken : backends :=
  {| chat_completion := fun _ => Raise (Failure (lit "Connection error."));
     generate_content := fun _ => Ok toss_answer;
     scoring_json := fun _ _ _ => Ok (PDict denying_reply);
     scenario_json := fun _ _ => Ok (PDict odd_scenario) |}.

(** Every task is answered by [steady]. *)
Definition calm : nat -> str -> backends := fun _ _ => steady odd_scenario.

(** The failure is injected into the one task [(i0, "GPT")]. *)
Definition injected (i0 : nat) : nat -> str -> backends :=
  fun i m =>
    if bool_decide (i = i0) && bool_decide (m = lit "GPT") then broken
    else steady odd_scenario.

End Samples.

(** ** The markup of [highlight]: app.py, lines 75 to 78 *)

Module Markup.

(** The replacement template around its group reference:
    [<mark style="background-color: #FFFF00; color: #000; font-weight: bold;">]
    and [</mark>] (34 is the double quote). *)
Definition mark_open : str :=
  lit "<mark style=" ++ [34%N] ++
  lit "background-color: #FFFF00; color: #000; font-weight: bold;" ++ [34%N] ++ lit ">".

Definition mark_close : str := lit "</mark>".

(** The compiled pattern is the escaped brand in one group, so it
    matches at a position when each brand character matches the text
    character in front of it.  [ci p c] is what [re.IGNORECASE] makes of
    the pattern character [p] and the text character [c]. *)
Fixpoint matches_at (ci : N -> N -> bool) (brand text : str) : bool :=
  match brand, text with
  | [], _ => true
  | _ :: _, [] => false
  | p :: brand', c :: text' => ci p c && matches_at ci brand' text'
  end.

(** [pattern.sub(template, text)] for a non-empty brand: the text is
    scanned from the left; at a match the template replaces it and the
    scan goes on behind the match, otherwise one character is copied.
    [fuel] bounds the number of steps; the length of the text is
    enough. *)
Fixpoint sub_marks (ci : N -> N -> bool) (brand : str) (fuel : nat) (text : str) : str :=
  match fuel with
  | O => text
  | S fuel' =>
      match text with
      | [] => []
      | c :: rest =>
          if matches_at ci brand text then
            mark_open ++ take (List.length brand) text ++ mark_close ++
            sub_marks ci brand fuel' (drop (List.length brand) text)
          else c :: sub_marks ci brand fuel' rest
      end
  end.

(** [highlight(text, brand)] on a text: what it returns. *)
Definition highlight (ci : N -> N -> bool) (text brand : str) : str :=
  if negb (text_truth (Some brand)) then text
  else sub_marks ci brand (List.length text) text.

(** A text cut into pieces, each either copied or marked. *)
Definition plain (pieces : list (bool * str)) : str :=
  List.concat (snd <$> pieces).

Definition marked (pieces : list (bool * str)) : str :=
  List.concat ((fun piece : bool * str =>
             if piece.1 then mark_open ++ piece.2 ++ mark_close else piece.2)
          <$> pieces).

End Markup.

(** ** The inquiry store: [_init_db] and [save_inquiry], and the form of app.py *)

Module Store.

(** A row of the table [inquiries]. *)
Record inquiry : Type := {
  id : Z;
  timestamp : str;
  brand : str;
  keyword : str;
  name : str;
  contact : str;
  message : str
}.

(** The table: its rows in insertion order and, for [AUTOINCREMENT],
    the largest id given so far (0 before the first insert). *)
Record table : Type := {
  rows : list inquiry;
  sequence : Z
}.

(** The file inquiries.db as this code makes it: [None] while it has no
    table [inquiries], else the table with the layout of [_init_db]. *)
Abbreviation database := (option table).

(** What is outside that table does to one connection
    ([sqlite3.connect], the statement, [commit]): [None] when nothing
    stops it, [Some e] when it is stopped by the exception [e]: a file
    that cannot be opened or written, a locked database, a table
    [inquiries] of another layout that rejects the statement.  The
    connection then rolls back and the database is as before. *)
Abbreviation access := (option exn).

(** [CREATE TABLE IF NOT EXISTS inquiries (...)], once it runs. *)
Definition create_table (db : database) : database :=
  match db with
  | None => Some {| rows := []; sequence := 0 |}
  | Some t => Some t
  end.

(** [_init_db]. *)
Definition _init_db (io : access) (db : database) : outcome database :=
  match io with
  | Some e => Raise e
  | None => Ok (create_table db)
  end.

(** The largest row id SQLite can give. *)
Definition max_rowid : Z := 2 ^ 63 - 1.

(** The largest id the table holds or ever gave. *)
Definition largest_id (t : table) : Z :=
  foldr Z.max (sequence t) (id <$> rows t).

(** A [str] can be bound to a [?] when it encodes to UTF-8: it has no
    surrogate code point. *)
Definition bindable (s : str) : bool :=
  forallb (fun c => negb ((0xD800 <=? c) && (c <=? 0xDFFF))%N) s.

(** [save_inquiry]; [now] is
    [datetime.datetime.now().strftime("%Y-%m-%d %H:%M:%S")].  The
    [INSERT] names every column but [id], which [AUTOINCREMENT] sets to
    one more than the largest id so far.  On an exception the connection
    rolls back: the database is as before.  The messages name the reason
    of SQLite's or the codec's error. *)
Definition save_inquiry (io : access) (now : str) (db : database)
    (brand keyword name contact message : str) : outcome database :=
  match io with
  | Some e => Raise e
  | None =>
      match db with
      | None => Raise (Failure (lit "no such table: inquiries"))
      | Some t =>
          if forallb bindable [now; brand; keyword; name; contact; message] then
            let last := largest_id t in
            if (last <? max_rowid)%Z then
              Ok (Some {| rows := rows t ++
                            [ {| id := last + 1; timestamp := now; brand := brand;
                                 keyword := keyword; name := name; contact := contact;
                                 message := message |} ];
                          sequence := last + 1 |})
            else Raise (Failure (lit "database or disk is full"))
          else Raise (Failure (lit "surrogates not allowed"))
      end
  end.

(** The rows the file holds, none while there is no table. *)
Definition stored (db : database) : list inquiry :=
  match db with
  | None => []
  | Some t => rows t
  end.

(** What was submitted in a row, without its id. *)
Definition entry (r : inquiry) : str * (str * str * str * str * str) :=
  (timestamp r, (brand r, keyword r, name r, contact r, message r)).

(** [GEOAnalyzer.__init__], lines 15 to 30: the chat client, then the
    generative backend when [GOOGLE_API_KEY] is set and not empty, then
    [_init_db].  [openai_client] and [gemini_model] are what building the
    two clients does (each may raise); the result is [gemini_available]
    and the database. *)
Definition GEOAnalyzer_init (openai_client : outcome unit) (google_key : option str)
    (gemini_model : outcome unit) (io : access) (db : database)
    : outcome (bool * database) :=
  _ ← openai_client;
  gemini_available ←
    (if text_truth google_key then _ ← gemini_model; Ok true else Ok false);
  db' ← _init_db io db;
  Ok (gemini_available, db').

(** The form of app.py, lines 164 to 175, once the button is pressed:
    the database afterwards and the exception that ended the script, if
    any.  [io_init] is the access of the constructor's [_init_db],
    [io_save] that of [save_inquiry]. *)
Definition submit_inquiry (openai_client : outcome unit) (google_key : option str)
    (gemini_model : outcome unit) (io_init io_save : access) (now : str) (db : database)
    (target_brand target_keyword name contact msg : str) : database * option exn :=
  if text_truth (Some name) && text_truth (Some contact) then
    match GEOAnalyzer_init openai_client google_key gemini_model io_init db with
    | Raise e => (db, Some e)
    | Ok (_, db1) =>
        match save_inquiry io_save now db1 target_brand target_keyword name contact msg with
        | Ok db2 => (db2, None)
        | Raise e => (db1, Some e)
        end
    end
  else (db, None).

(** One call of [save_inquiry] per entry, in order, each with its
    access; [None] when one of them raises. *)
Fixpoint save_all (db : database)
    (calls : list (access * (str * (str * str * str * str * str)))) : option database :=
  match calls with
  | [] => Some db
  | (io, (now, (brand, keyword, name, contact, message))) :: rest =>
      match save_inquiry io now db brand keyword name contact message with
      | Ok db' => save_all db' rest
      | Raise _ => None
      end
  end.

End Store.

(** ** More sample inputs *)

Module Cases.
Import Engine.

(** Backends whose scoring and scenario replies parse to an empty
    list. *)
Definition listy : backends :=
  {| chat_completion := fun _ => Ok (Some Samples.toss_answer);
     generate_content := fun _ => Ok Samples.toss_answer;
     scoring_json := fun _ _ _ => Ok (PList []);
     scenario_json := fun _ _ => Ok (PList []) |}.

(** Backends whose chat reply has no content and whose JSON calls time
    out on the scenario. *)
Definition silent : backends :=
  {| chat_completion := fun _ => Ok None;
     generate_content := fun _ => Ok [];
     scoring_json := fun _ _ _ => Ok (PDict Samples.denying_reply);
     scenario_json := fun _ _ => Raise (Failure (lit "Request timed out.")) |}.

(** A scoring reply with [mentioned] only. *)
Definition bare_reply : gmap str pyval := <[lit "mentioned" := PBool true]> ∅.

(** Case-insensitive matching of ASCII letters. *)
Definition ascii_ci (p c : N) : bool :=
  (Detector.lower_char p =? Detector.lower_char c)%N.

(** Two submissions. *)
Definition first_entry : str * (str * str * str * str * str) :=
  (lit "2025-01-02 03:04:05",
   (lit "Toss", lit "pay", lit "Kim", lit "kim@example.com", lit "call me")).

Definition second_entry : str * (str * str * str * str * str) :=
  (lit "2025-01-02 03:05:00",
   (lit "Toss", lit "pay", lit "Lee", lit "010-0000-0000", [])).

End Cases.

(** ** Properties of the mention detector *)

Section DetectorFacts.
Import Detector.

Lemma in_range_spec lo hi c :
  in_range lo hi c = true <-> (lo <= c <= hi)%N.
Proof.
  unfold in_range. rewrite andb_true_iff, !N.leb_le. tauto.
Qed.

Lemma pattern_matches_kept c : pattern_matches c = false <-> kept c.
Proof.
  unfold pattern_matches, in_class, class_ranges, kept, ascii_letter,
    ascii_digit, hangul_syllable.
  rewrite negb_false_iff. cbn [existsb fst snd].
  rewrite !orb_true_iff, !in_range_spec. intuition discriminate.
Qed.

Lemma pattern_matches_not_kept c : pattern_matches c = true <-> ~ kept c.
Proof.
  rewrite <- pattern_matches_kept. destruct (pattern_matches c); intuition congruence.
Qed.

Lemma re_sub_empty_filter s :
  re_sub_empty pattern_matches s = filter kept s.
Proof.
  induction s as [|c s IH]; [reflexivity|]. cbn [re_sub_empty].
  destruct (pattern_matches c) eqn:E.
  - apply pattern_matches_not_kept in E. rewrite filter_cons_False by exact E. exact IH.
  - apply pattern_matches_kept in E. rewrite filter_cons_True by exact E.
    now rewrite IH.
Qed.

Lemma lower_char_to_lower c : lower_char c = to_lower c.
Proof.
  unfold lower_char, to_lower.
  destruct (in_range 65 90 c) eqn:E.
  - apply in_range_spec in E. rewrite decide_True by exact E. lia.
  - rewrite decide_False; [reflexivity|].
    intros H. apply in_range_spec in H. congruence.
Qed.

(** The source's [normalize] is the normalization the specification
    describes. *)
Lemma normalize_refines s : normalize s = normalize_spec s.
Proof.
  unfold normalize, normalize_spec, lower. rewrite re_sub_empty_filter.
  apply map_ext. intros c. apply lower_char_to_lower.
Qed.

Lemma starts_with_spec b a :
  starts_with b a = true <-> exists suf, a = b ++ suf.
Proof.
  revert a. induction b as [|x b IH]; intros a; cbn [starts_with].
  - split; [intros _; now exists a | reflexivity].
  - destruct a as [|y a].
    + split; [discriminate | intros [suf H]; discriminate].
    + rewrite andb_true_iff, N.eqb_eq, IH. split.
      * intros [-> [suf ->]]. now exists suf.
      * intros [suf H]. injection H as -> ->. eauto.
Qed.

Lemma str_in_spec needle hay :
  str_in needle hay = true <-> substring needle hay.
Proof.
  unfold substring. induction hay as [|y hay IH]; cbn [str_in].
  - rewrite orb_false_r, starts_with_spec. split.
    + intros [suf H]. now exists [], suf.
    + intros [pre [suf H]]. symmetry in H.
      apply app_eq_nil in H as [-> H]. exists suf. now rewrite H.
  - rewrite orb_true_iff, starts_with_spec, IH. split.
    + intros [[suf H]|[pre [suf H]]].
      * now exists [], suf.
      * exists (y :: pre), suf. now rewrite H.
    + intros [[|p pre] [suf H]].
      * left. now exists suf.
      * right. injection H as -> ->. eauto.
Qed.

Lemma check_visibility_logic_nonempty (t b : str) :
  t <> [] -> b <> [] ->
  check_visibility_logic (Some t) (Some b) = str_in (normalize b) (normalize t).
Proof.
  intros Ht Hb. destruct t; [congruence|]. destruct b; [congruence|]. reflexivity.
Qed.

Lemma kept_lower_char c : kept c -> kept (lower_char c).
Proof.
  unfold kept, ascii_letter, ascii_digit, hangul_syllable, lower_char.
  intros H. destruct (in_range 65 90 c) eqn:E; [|exact H].
  apply in_range_spec in E. lia.
Qed.

Lemma lower_char_idem c : lower_char (lower_char c) = lower_char c.
Proof.
  unfold lower_char at 2 3. destruct (in_range 65 90 c) eqn:E; [|now unfold lower_char; rewrite E].
  apply in_range_spec in E. unfold lower_char.
  destruct (in_range 65 90 (c + 32)) eqn:E'; [|reflexivity].
  apply in_range_spec in E'. lia.
Qed.

Lemma normalize_cons_kept c s :
  kept c -> normalize (c :: s) = lower_char c :: normalize s.
Proof.
  intros H. apply pattern_matches_kept in H.
  unfold normalize. cbn [re_sub_empty]. now rewrite H.
Qed.

Lemma normalize_cons_dropped c s :
  ~ kept c -> normalize (c :: s) = normalize s.
Proof.
  intros H. apply pattern_matches_not_kept in H.
  unfold normalize. cbn [re_sub_empty]. now rewrite H.
Qed.

Lemma normalize_app s1 s2 : normalize (s1 ++ s2) = normalize s1 ++ normalize s2.
Proof.
  induction s1 as [|c s1 IH]; [reflexivity|]. cbn [app].
  destruct (decide (kept c)) as [H|H].
  - rewrite !normalize_cons_kept by exact H. cbn [app]. now rewrite IH.
  - now rewrite !normalize_cons_dropped by exact H.
Qed.

Lemma normalize_nil_iff s : normalize s = [] <-> Forall (fun c => ~ kept c) s.
Proof.
  induction s as [|c s IH].
  - split; [constructor | reflexivity].
  - destruct (decide (kept c)) as [H|H].
    + rewrite normalize_cons_kept by exact H. split; [discriminate|].
      intros F. inversion F; subst. contradiction.
    + rewrite normalize_cons_dropped by exact H. rewrite IH. split.
      * intros F. now constructor.
      * intros F. now inversion F.
Qed.

Lemma str_in_nil hay : str_in [] hay = true.
Proof. destruct hay; reflexivity. Qed.

(** C8. Normalization idempotence: normalizing an already normalized
    text changes nothing, [normalize (normalize T) = normalize T] for
    every text [T]. *)
Theorem normalize_idempotent (T : str) :
  normalize (normalize T) = normalize T.
Proof.
  induction T as [|c T IH]; [reflexivity|].
  destruct (decide (kept c)) as [H|H].
  - rewrite (normalize_cons_kept c T H).
    rewrite normalize_cons_kept by now apply kept_lower_char.
    now rewrite lower_char_idem, IH.
  - now rewrite normalize_cons_dropped by exact H.
Qed.

(** C7. Empty-input guard: the detector answers [False] when the text is
    absent ([None]) or empty, whatever the brand, and when the brand is
    absent or empty, whatever the text. *)
Theorem check_visibility_logic_missing (text brand_name : option str) :
  check_visibility_logic None brand_name = false /\
  check_visibility_logic (Some []) brand_name = false /\
  check_visibility_logic text None = false /\
  check_visibility_logic text (Some []) = false.
Proof.
  unfold check_visibility_logic. cbn [text_truth negb orb].
  repeat split; destruct (text_truth text); reflexivity.
Qed.

(** C2. Mention detector correctness: for a non-empty text [T] and a
    non-empty brand [B] the detector answers [True] exactly when the
    normalized brand is a contiguous substring of the normalized text,
    and the normalization is the one of the specification (drop every
    character that is not an ASCII letter, an ASCII digit or a Hangul
    syllable, lower-case the rest), the same for both arguments. *)
Theorem check_visibility_logic_correct (T B : str) :
  T <> [] -> B <> [] ->
  (check_visibility_logic (Some T) (Some B) = true <->
   substring (normalize_spec B) (normalize_spec T)) /\
  (check_visibility_logic (Some T) (Some B) = false <->
   ~ substring (normalize_spec B) (normalize_spec T)).
Proof.
  intros HT HB. rewrite check_visibility_logic_nonempty by assumption.
  rewrite <- !normalize_refines, <- str_in_spec.
  destruct (str_in (normalize B) (normalize T)); intuition congruence.
Qed.

(** C9. A non-empty brand without any ASCII letter, ASCII digit or
    Hangul syllable normalizes to the empty string, and the detector
    then answers [True] for every non-empty text. *)
Theorem check_visibility_logic_blank_brand (T B : str) :
  T <> [] -> B <> [] -> Forall (fun c => ~ kept c) B ->
  normalize B = [] /\ check_visibility_logic (Some T) (Some B) = true.
Proof.
  intros HT HB HF. apply normalize_nil_iff in HF. split; [exact HF|].
  rewrite check_visibility_logic_nonempty by assumption.
  rewrite HF. apply str_in_nil.
Qed.

End DetectorFacts.

(** ** Properties of the analyzer *)

Section EngineFacts.
Import Detector Engine.

Lemma success_dict_lookup q_idx model_type raw_text analysis_data :
  let d := success_dict q_idx model_type raw_text analysis_data in
  d !! lit "q_idx" = Some (PInt q_idx) /\
  d !! lit "model_type" = Some (PStr model_type) /\
  d !! lit "raw" = Some (of_text raw_text) /\
  d !! lit "analysis" = Some analysis_data /\
  d !! lit "error" = None.
Proof. repeat split. Qed.

Lemma error_dict_lookup q_idx model_type e :
  let d := error_dict q_idx model_type e in
  d !! lit "q_idx" = Some (PInt q_idx) /\
  d !! lit "model_type" = Some (PStr model_type) /\
  d !! lit "error" = Some (PStr (exn_str e)) /\
  d !! lit "raw" = None /\
  d !! lit "analysis" = None.
Proof. repeat split. Qed.

Lemma setitem_dict d key v :
  setitem (PDict d) key v = Ok (PDict (<[key := v]> d)).
Proof. reflexivity. Qed.

Lemma setitem_not_dict obj key v :
  (forall d, obj <> PDict d) -> exists e, setitem obj key v = Raise e.
Proof. intros H. destruct obj; cbn; eauto. now destruct (H d). Qed.

(** What [score] returns, by the reply of the scoring call. *)
Lemma score_cases net model_type brand_name q_idx raw_text :
  let v := check_visibility_logic raw_text (Some brand_name) in
  (exists d,
      scoring_json net brand_name raw_text v = Ok (PDict d) /\
      score net model_type brand_name q_idx raw_text =
        Ok (PDict (success_dict q_idx model_type raw_text
                     (PDict (<[lit "mentioned" := PBool v]> d))))) \/
  (exists e, score net model_type brand_name q_idx raw_text = Raise e).
Proof.
  intros v. unfold score. fold v.
  destruct (scoring_json net brand_name raw_text v) as [data|e] eqn:E;
    [|right; now exists e].
  destruct data; cbn; eauto.
Qed.

(** The three ways [analyze_task] ends. *)
Lemma analyze_task_cases gemini_available net model_type brand_name question q_idx :
  let res := analyze_task gemini_available net model_type brand_name question q_idx in
  (res = PNone /\ gemini_available = false /\ model_type <> lit "GPT") \/
  (exists raw_text d,
      answered gemini_available net model_type question raw_text /\
      scoring_json net brand_name raw_text
        (check_visibility_logic raw_text (Some brand_name)) = Ok (PDict d) /\
      res = PDict (success_dict q_idx model_type raw_text
                     (PDict (<[lit "mentioned" :=
                                 PBool (check_visibility_logic raw_text (Some brand_name))]> d)))) \/
  (exists e, res = PDict (error_dict q_idx model_type e)).
Proof.
  intros res. subst res. unfold analyze_task, analyze_task_body, answered.
  case_bool_decide as Hm.
  - destruct (chat_completion net question) as [raw_text|e] eqn:Ec; cbn.
    + destruct (score_cases net model_type brand_name q_idx raw_text)
        as [(d & Hs & ->)|(e & ->)]; [|eauto].
      right; left. exists raw_text, d. auto.
    + eauto.
  - destruct gemini_available; cbn.
    + destruct (generate_content net question) as [s|e] eqn:Eg; cbn; [|eauto].
      destruct (score_cases net model_type brand_name q_idx (Some s))
        as [(d & Hs & ->)|(e & ->)]; [|eauto].
      right; left. exists (Some s), d. split; [|auto].
      right. eauto.
    + left. auto.
Qed.








(** With an answer and an object as scoring reply the task succeeds,
    whatever the object holds. *)
Lemma analyze_task_success gemini_available net model_type brand_name question q_idx
    raw_text d :
  answered gemini_available net model_type question raw_text ->
  scoring_json net brand_name raw_text
    (check_visibility_logic raw_text (Some brand_name)) = Ok (PDict d) ->
  analyze_task gemini_available net model_type brand_name question q_idx =
    PDict (success_dict q_idx model_type raw_text
             (PDict (<[lit "mentioned" :=
                         PBool (check_visibility_logic raw_text (Some brand_name))]> d))).
Proof.
  intros Ha Hs. unfold analyze_task, analyze_task_body.
  destruct Ha as [[Hm Hc]|(Hm & Hg & s & Hc & ->)].
  - rewrite bool_decide_eq_true_2 by exact Hm. rewrite Hc. cbn.
    unfold score. rewrite Hs. reflexivity.
  - rewrite bool_decide_eq_false_2 by exact Hm. rewrite Hg, Hc. cbn.
    unfold score. rewrite Hs. reflexivity.
Qed.

(** A chat reply without content ([None]) still gives a success record:
    its [raw] is [None] and its [mentioned] is [False]. *)
Lemma analyze_task_empty_content gemini_available net brand_name question q_idx d :
  chat_completion net question = Ok None ->
  scoring_json net brand_name None false = Ok (PDict d) ->
  analyze_task gemini_available net (lit "GPT") brand_name question q_idx =
    PDict (success_dict q_idx (lit "GPT") None
             (PDict (<[lit "mentioned" := PBool false]> d))).
Proof.
  intros Hc Hs.
  apply (analyze_task_success gemini_available net (lit "GPT") brand_name question q_idx None d).
  - left. split; [reflexivity|exact Hc].
  - exact Hs.
Qed.

Lemma normalize_toss_answer :
  normalize Samples.toss_answer =
    normalize (lit "Toss") ++ [0xC571; 0xC744; 0xC774; 0xC6A9; 0xD558; 0xC138; 0xC694]%N.
Proof. reflexivity. Qed.

Lemma detect_toss pre suf :
  check_visibility_logic (Some (pre ++ Samples.toss_answer ++ suf)) (Some (lit "Toss")) = true.
Proof.
  rewrite check_visibility_logic_nonempty.
  - rewrite !normalize_app, normalize_toss_answer. apply str_in_spec.
    eexists (normalize pre), _. rewrite <- app_assoc. reflexivity.
  - destruct pre; discriminate.
  - discriminate.
Qed.

(** C1. Mention override: in every result of [analyze_task] that has an
    [analysis] block, that block is an object whose [mentioned] is the
    detector's verdict on the record's own [raw] text and the brand,
    whatever the scoring reply proposed.  In particular, for brand
    "Toss" and an answer that contains "TOSS 앱을 이용하세요",
    [mentioned] is [True] although the scoring reply said [False]. *)
Theorem mention_override :
  (forall gemini_available net model_type brand_name question q_idx res analysis,
      analyze_task gemini_available net model_type brand_name question q_idx = PDict res ->
      res !! lit "analysis" = Some analysis ->
      exists raw_text block,
        res !! lit "raw" = Some (of_text raw_text) /\
        analysis = PDict block /\
        block !! lit "mentioned" =
          Some (PBool (check_visibility_logic raw_text (Some brand_name)))) /\
  (forall gemini_available net model_type question q_idx pre suf proposal,
      let raw_text := Some (pre ++ Samples.toss_answer ++ suf) in
      answered gemini_available net model_type question raw_text ->
      scoring_json net (lit "Toss") raw_text
        (check_visibility_logic raw_text (Some (lit "Toss"))) = Ok (PDict proposal) ->
      proposal !! lit "mentioned" = Some (PBool false) ->
      exists res block,
        analyze_task gemini_available net model_type (lit "Toss") question q_idx = PDict res /\
        res !! lit "raw" = Some (of_text raw_text) /\
        res !! lit "analysis" = Some (PDict block) /\
        block !! lit "mentioned" = Some (PBool true)).
Proof.
  split.
  - intros ga net m b q i res analysis Hres Han.
    destruct (analyze_task_cases ga net m b q i)
      as [(H & _)|[(raw & d & _ & _ & H)|(e & H)]]; rewrite Hres in H.
    + discriminate H.
    + injection H as ->. exists raw, (<[lit "mentioned" := PBool (check_visibility_logic raw (Some b))]> d).
      destruct (success_dict_lookup i m raw
                  (PDict (<[lit "mentioned" := PBool (check_visibility_logic raw (Some b))]> d)))
        as (_ & _ & Hraw & Han' & _).
      split; [exact Hraw|]. split; [congruence|]. apply lookup_insert_eq.
    + injection H as ->.
      destruct (error_dict_lookup i m e) as (_ & _ & _ & _ & Hno). congruence.
  - intros ga net m q i pre suf proposal raw_text Ha Hs _.
    rewrite (analyze_task_success ga net m (lit "Toss") q i raw_text proposal Ha Hs).
    eexists _, _. split; [reflexivity|].
    destruct (success_dict_lookup i m raw_text
                (PDict (<[lit "mentioned" :=
                            PBool (check_visibility_logic raw_text (Some (lit "Toss")))]> proposal)))
      as (_ & _ & Hraw & Han & _).
    split; [exact Hraw|]. split; [exact Han|].
    rewrite lookup_insert_eq. subst raw_text. now rewrite detect_toss.
Qed.

(** C10. Frame of the scoring step: when the task has its answer and the
    scoring reply is an object, whatever it holds, the task succeeds
    and its [analysis] block is that object with only [mentioned]
    replaced: every other key has the value the reply gave it (or stays
    absent), so the value of [solution_fit] goes through unchecked. *)
Theorem scoring_reply_frame gemini_available net model_type brand_name question q_idx
    raw_text reply :
  answered gemini_available net model_type question raw_text ->
  scoring_json net brand_name raw_text
    (check_visibility_logic raw_text (Some brand_name)) = Ok (PDict reply) ->
  exists res block,
    analyze_task gemini_available net model_type brand_name question q_idx = PDict res /\
    res !! lit "analysis" = Some (PDict block) /\
    (forall key, key <> lit "mentioned" -> block !! key = reply !! key) /\
    delete (lit "mentioned") block = delete (lit "mentioned") reply /\
    block !! lit "solution_fit" = reply !! lit "solution_fit".
Proof.
  intros Ha Hs.
  rewrite (analyze_task_success _ _ _ _ _ q_idx _ _ Ha Hs).
  eexists _, _. split; [reflexivity|]. split; [reflexivity|].
  split; [|split].
  - intros key Hk. now apply lookup_insert_ne.
  - apply delete_insert_eq.
  - now apply lookup_insert_ne.
Qed.

Lemma generate_scenarios_call_raises net brand_name service_keyword e :
  scenario_json net brand_name service_keyword = Raise e ->
  generate_scenarios net brand_name service_keyword = Raise e.
Proof. intros H. unfold generate_scenarios. now rewrite H. Qed.

Lemma generate_scenarios_not_object net brand_name service_keyword data :
  scenario_json net brand_name service_keyword = Ok data ->
  (forall d, data <> PDict d) ->
  exists msg, generate_scenarios net brand_name service_keyword = Raise (TypeError msg).
Proof.
  intros H Hd. unfold generate_scenarios. rewrite H.
  destruct data; cbn; eauto. now destruct (Hd d).
Qed.

(** C6, as the code has it.  When the scenario reply parses to an
    object, [generate_scenarios] raises [KeyError] if the key [queries]
    is absent, or if [strategy] is; otherwise it returns the two stored
    values as they are, whatever the value under [queries] is. *)
Theorem generate_scenarios_keys net brand_name service_keyword data :
  scenario_json net brand_name service_keyword = Ok (PDict data) ->
  (data !! lit "queries" = None ->
   generate_scenarios net brand_name service_keyword = Raise (KeyError (lit "queries"))) /\
  (forall queries,
      data !! lit "queries" = Some queries -> data !! lit "strategy" = None ->
      generate_scenarios net brand_name service_keyword = Raise (KeyError (lit "strategy"))) /\
  (forall queries strategy,
      data !! lit "queries" = Some queries -> data !! lit "strategy" = Some strategy ->
      generate_scenarios net brand_name service_keyword = Ok (queries, strategy)).
Proof.
  intros H. unfold generate_scenarios. rewrite H. cbn.
  repeat split.
  - intros ->. reflexivity.
  - intros queries -> Hs. cbn. now rewrite Hs.
  - intros queries strategy -> Hs. cbn. now rewrite Hs.
Qed.

End EngineFacts.

(** ** Properties of the batch *)

Section BatchFacts.
Import Engine App.

Lemma truth_error_record res : error_record res -> truth res = true.
Proof.
  intros (d & msg & -> & He & _). cbn.
  rewrite bool_decide_eq_false_2; [reflexivity|].
  intros ->. rewrite lookup_empty in He. discriminate He.
Qed.

(** Drawing an error record raises: at the latest, [res["analysis"]]
    is a [KeyError]. *)
Lemma render_error_record n_slots brand_in res :
  error_record res -> exists e, render n_slots brand_in res = Raise e.
Proof.
  intros (d & msg & -> & _ & _ & Ha). unfold render. cbn [getitem].
  destruct (d !! lit "q_idx"); cbn; [|eauto].
  destruct (d !! lit "model_type"); cbn; [|eauto].
  destruct (slot_lookup n_slots p p0); cbn; [|eauto].
  rewrite Ha. cbn. eauto.
Qed.

Lemma collect_aborts n_slots brand_in completed :
  forall all_res res,
    In res completed -> error_record res ->
    exists collected e, collect n_slots brand_in all_res completed = (collected, Some e).
Proof.
  induction completed as [|r rest IH]; intros all_res res Hin Herr; [destruct Hin|].
  cbn [collect]. destruct Hin as [->|Hin].
  - rewrite (truth_error_record _ Herr).
    destruct (render_error_record n_slots brand_in res Herr) as [e ->]. eauto.
  - destruct (truth r); [|eauto].
    destruct (render n_slots brand_in r); eauto.
Qed.

(** The tasks of one batch do not share state: the future of a task
    depends on the backends through what they answer to this task
    only. *)
Lemma task_result_isolated gemini_available net net' brand_in queries t :
  net t.1 t.2 = net' t.1 t.2 ->
  task_result gemini_available net brand_in queries t =
  task_result gemini_available net' brand_in queries t.
Proof. intros H. unfold task_result. now rewrite H. Qed.

(** C4, where the code departs from it.  Whenever one task of the
    batch ends in an error record, the collection loop of app.py ends
    with an exception, whatever the other tasks did, and
    [st.session_state.results] is never assigned. *)
Theorem failed_task_aborts_batch gemini_available net brand_in queries completion t :
  In t completion ->
  error_record (task_result gemini_available net brand_in queries t) ->
  (exists collected e,
      run_batch gemini_available net brand_in queries completion = (collected, Some e)) /\
  session_results (run_batch gemini_available net brand_in queries completion) = None.
Proof.
  intros Hin Herr.
  assert (exists collected e,
             run_batch gemini_available net brand_in queries completion = (collected, Some e))
    as (collected & e & H).
  { unfold run_batch. eapply collect_aborts; [|exact Herr].
    apply in_map_iff. eauto. }
  split; [eauto|]. now rewrite H.
Qed.

Lemma collect_all n_slots brand_in completed :
  forall all_res,
    Forall (fun res => truth res = true -> render n_slots brand_in res = Ok ()) completed ->
    collect n_slots brand_in all_res completed =
      (all_res ++ filter (fun res => truth res = true) completed, None).
Proof.
  induction completed as [|r rest IH]; intros all_res HF; cbn [collect].
  - now rewrite app_nil_r.
  - inversion HF as [|? ? Hr Hrest]; subst.
    destruct (truth r) eqn:Et.
    + rewrite (Hr eq_refl), IH by exact Hrest.
      rewrite filter_cons_True by exact Et. now rewrite <- app_assoc.
    + rewrite IH by exact Hrest.
      rewrite filter_cons_False; [reflexivity|]. now rewrite Et.
Qed.

(** A future holds [None] exactly for the tasks whose engine cannot
    answer; every other future holds a record attributed to its task. *)
Lemma task_result_runs gemini_available net brand_in queries t :
  truth (task_result gemini_available net brand_in queries t) = runs gemini_available t /\
  (runs gemini_available t = true ->
   attribution (task_result gemini_available net brand_in queries t) =
     Some (PStr t.2, PInt (Z.of_nat t.1))).
Proof.
  unfold task_result, runs.
  destruct (analyze_task_cases gemini_available (net t.1 t.2) t.2 brand_in
              (leftover_q queries) (Z.of_nat t.1))
    as [(H & Hg & Hm)|[(raw & d & Ha & _ & H)|(e & H)]]; cbn zeta in H.
  - rewrite H, Hg, bool_decide_eq_false_2 by exact Hm. split; [reflexivity|discriminate].
  - rewrite H. split; [|reflexivity].
    destruct Ha as [[-> _]|(_ & -> & _)]; [reflexivity|].
    now rewrite orb_true_r.
  - rewrite H. split; [|reflexivity].
    case_bool_decide as Hm; [reflexivity|]. destruct gemini_available; [reflexivity|].
    exfalso. unfold analyze_task, analyze_task_body in H.
    rewrite bool_decide_eq_false_2 in H by exact Hm. discriminate H.
Qed.

Lemma filter_truth_results gemini_available net brand_in queries (l : list (nat * str)) :
  filter (fun res => truth res = true)
    (task_result gemini_available net brand_in queries <$> l) =
  task_result gemini_available net brand_in queries <$>
    filter (fun t => runs gemini_available t = true) l.
Proof.
  induction l as [|t l IH]; [reflexivity|]. rewrite fmap_cons.
  destruct (task_result_runs gemini_available net brand_in queries t) as [Ht _].
  destruct (runs gemini_available t) eqn:Er.
  - rewrite !filter_cons_True by congruence. now rewrite fmap_cons, IH.
  - rewrite !filter_cons_False by congruence. exact IH.
Qed.

Lemma length_running_tasks gemini_available (l : list nat) :
  List.length (filter (fun t => runs gemini_available t = true)
                 (i ← l; m ← [lit "GPT"; lit "Gemini"]; [(i, m)])) =
  List.length l * available_engines gemini_available.
Proof.
  induction l as [|i l IH]; [reflexivity|].
  rewrite bind_cons, filter_app, length_app, IH.
  destruct gemini_available; reflexivity.
Qed.

Lemma NoDup_tasks queries : NoDup (tasks queries).
Proof.
  unfold tasks. apply NoDup_bind.
  - intros i j t _ _ Hi Hj.
    apply list_elem_of_bind in Hi as (m & Hi & _).
    apply list_elem_of_bind in Hj as (m' & Hj & _).
    apply list_elem_of_singleton in Hi, Hj. congruence.
  - intros i _. cbn. apply NoDup_cons. split; [|apply NoDup_singleton].
    intros H. apply list_elem_of_singleton in H. inversion H.
  - apply NoDup_seq.
Qed.

(** X18. Where every record that is collected can be drawn, the batch is
    complete: one record per task whose engine can answer, hence
    [N * E] records, no two for the same (engine, question index), and
    none for the generative engine when it is unavailable. *)
Lemma run_batch_complete gemini_available net brand_in queries completion :
  completion ≡ₚ tasks queries ->
  (forall t, In t completion ->
             truth (task_result gemini_available net brand_in queries t) = true ->
             render (List.length queries) brand_in
               (task_result gemini_available net brand_in queries t) = Ok ()) ->
  exists collected,
    run_batch gemini_available net brand_in queries completion = (collected, None) /\
    List.length collected = List.length queries * available_engines gemini_available /\
    NoDup (attribution <$> collected) /\
    (gemini_available = false ->
     Forall (fun res => exists i, attribution res = Some (PStr (lit "GPT"), PInt i)) collected).
Proof.
  intros Hperm Hdraw.
  set (f := task_result gemini_available net brand_in queries).
  set (P := fun t : nat * str => runs gemini_available t = true).
  exists (f <$> filter P completion). split; [|split; [|split]].
  - unfold run_batch. rewrite collect_all.
    + cbn [app]. now rewrite filter_truth_results.
    + apply Forall_forall. intros res Hin.
      apply list_elem_of_In, in_map_iff in Hin as (t & <- & Hin). now apply Hdraw.
  - rewrite length_fmap, Hperm. unfold P, tasks.
    rewrite length_running_tasks. now rewrite length_seq.
  - rewrite <- list_fmap_compose.
    assert (NoDup (filter P completion)) as Hnd.
    { apply NoDup_filter. rewrite Hperm. apply NoDup_tasks. }
    apply NoDup_fmap_2_strong; [|exact Hnd].
    intros t t' Ht Ht' Heq. cbn [compose] in Heq.
    apply list_elem_of_filter in Ht as [Ht _]. apply list_elem_of_filter in Ht' as [Ht' _].
    destruct (task_result_runs gemini_available net brand_in queries t) as [_ Ha].
    destruct (task_result_runs gemini_available net brand_in queries t') as [_ Ha'].
    unfold f in Heq. rewrite (Ha Ht), (Ha' Ht') in Heq.
    destruct t, t'. cbn in Heq. injection Heq as -> H. f_equal. lia.
  - intros ->. apply Forall_forall. intros res Hin.
    apply list_elem_of_fmap in Hin as (t & -> & Hin).
    apply list_elem_of_filter in Hin as [Ht _].
    destruct (task_result_runs false net brand_in queries t) as [_ Ha].
    unfold f. rewrite (Ha Ht). exists (Z.of_nat t.1).
    unfold P, runs in Ht. rewrite orb_false_r in Ht.
    apply bool_decide_eq_true_1 in Ht. now rewrite Ht.
Qed.

(** C5, where the code departs from it.  Three queries, the
    generative backend unavailable, so [N * E = 3]; the chat call of
    task 1 fails and that task completes first.  The loop collects the
    error record, raises on drawing it, and ends with one record where
    three are due; [st.session_state.results] is never assigned. *)
Theorem batch_incomplete_after_failed_task :
  let queries := [lit "q0"; lit "q1"; lit "q2"] in
  let completion :=
    [(1, lit "GPT"); (1, lit "Gemini"); (0, lit "GPT"); (2, lit "Gemini");
     (2, lit "GPT"); (0, lit "Gemini")] in
  let run := run_batch false (Samples.injected 1) (lit "Toss") queries completion in
  completion ≡ₚ tasks queries /\
  run = ([PDict (error_dict 1 (lit "GPT") (Failure (lit "Connection error.")))],
         Some (KeyError (lit "analysis"))) /\
  List.length run.1 < List.length queries * available_engines false /\
  session_results run = None.
Proof.
  intros queries completion run. split; [|split; [|split]].
  - apply (bool_decide_unpack _). vm_compute. exact I.
  - reflexivity.
  - change run with ([PDict (error_dict 1 (lit "GPT") (Failure (lit "Connection error.")))],
                      Some (KeyError (lit "analysis"))).
    cbn. lia.
  - reflexivity.
Qed.

End BatchFacts.

Lemma check_visibility_logic_correct_witness :
  (Detector.check_visibility_logic (Some Samples.toss_answer) (Some (lit "Toss")) = true <->
   Detector.substring (Detector.normalize_spec (lit "Toss")) (Detector.normalize_spec Samples.toss_answer)) /\
  (Detector.check_visibility_logic (Some Samples.toss_answer) (Some (lit "Toss")) = false <->
   ~ Detector.substring (Detector.normalize_spec (lit "Toss")) (Detector.normalize_spec Samples.toss_answer)).
Proof.
  apply (check_visibility_logic_correct Samples.toss_answer (lit "Toss")); vm_compute; discriminate.
Defined.

Lemma check_visibility_logic_blank_brand_witness :
  Detector.normalize Samples.bangs = [] /\
  Detector.check_visibility_logic (Some Samples.toss_answer) (Some Samples.bangs) = true.
Proof.
  apply (check_visibility_logic_blank_brand Samples.toss_answer Samples.bangs).
  - vm_compute; discriminate.
  - vm_compute; discriminate.
  - repeat constructor; vm_compute; intuition discriminate.
Defined.

Lemma mention_override_witness :
  (exists raw_text block,
      Engine.success_dict 0 (lit "GPT") (Some Samples.toss_answer)
        (PDict (<[lit "mentioned" := PBool true]> Samples.denying_reply)) !! lit "raw"
        = Some (of_text raw_text) /\
      PDict (<[lit "mentioned" := PBool true]> Samples.denying_reply) = PDict block /\
      block !! lit "mentioned" =
        Some (PBool (Detector.check_visibility_logic raw_text (Some (lit "Toss"))))) /\
  (exists res block,
      Engine.analyze_task false (Samples.steady Samples.odd_scenario) (lit "GPT")
        (lit "Toss") (lit "q0") 0 = PDict res /\
      res !! lit "raw" = Some (of_text (Some ([] ++ Samples.toss_answer ++ []))) /\
      res !! lit "analysis" = Some (PDict block) /\
      block !! lit "mentioned" = Some (PBool true)).
Proof.
  split.
  - apply (proj1 mention_override false (Samples.steady Samples.odd_scenario) (lit "GPT")
             (lit "Toss") (lit "q0") 0%Z
             (Engine.success_dict 0 (lit "GPT") (Some Samples.toss_answer)
                (PDict (<[lit "mentioned" := PBool true]> Samples.denying_reply)))
             (PDict (<[lit "mentioned" := PBool true]> Samples.denying_reply)));
      reflexivity.
  - apply (proj2 mention_override false (Samples.steady Samples.odd_scenario) (lit "GPT")
             (lit "q0") 0%Z [] [] Samples.denying_reply).
    + left. split; reflexivity.
    + reflexivity.
    + reflexivity.
Defined.

Lemma scoring_reply_frame_witness :
  exists res block,
    Engine.analyze_task true (Samples.steady Samples.odd_scenario) (lit "Gemini")
      (lit "Toss") (lit "q0") 0 = PDict res /\
    res !! lit "analysis" = Some (PDict block) /\
    (forall key, key <> lit "mentioned" -> block !! key = Samples.denying_reply !! key) /\
    delete (lit "mentioned") block = delete (lit "mentioned") Samples.denying_reply /\
    block !! lit "solution_fit" = Samples.denying_reply !! lit "solution_fit".
Proof.
  apply (scoring_reply_frame true (Samples.steady Samples.odd_scenario) (lit "Gemini")
           (lit "Toss") (lit "q0") 0%Z (Some Samples.toss_answer) Samples.denying_reply).
  - right. split; [vm_compute; discriminate|]. split; [reflexivity|].
    exists Samples.toss_answer. split; reflexivity.
  - reflexivity.
Defined.

(** C6 as stated fails: a reply whose [queries] is the number 5 is
    malformed in the specification's sense, and [generate_scenarios]
    returns it. *)
Lemma generate_scenarios_accepts_non_sequence :
  Engine.scenario_json (Samples.steady Samples.odd_scenario) (lit "Toss") (lit "pay")
    = Ok (PDict Samples.odd_scenario) /\
  Engine.malformed_response Samples.odd_scenario /\
  Engine.generate_scenarios (Samples.steady Samples.odd_scenario) (lit "Toss") (lit "pay")
    = Ok (PInt 5, PStr (lit "target the need")).
Proof.
  split; [reflexivity|]. split; [|reflexivity].
  right; right. intros q Hq l ->. vm_compute in Hq. discriminate Hq.
Qed.

Lemma generate_scenarios_keys_witness :
  Engine.generate_scenarios (Samples.steady Samples.partial_scenario) (lit "Toss") (lit "pay")
    = Raise (KeyError (lit "strategy")) /\
  Engine.generate_scenarios (Samples.steady Samples.odd_scenario) (lit "Toss") (lit "pay")
    = Ok (PInt 5, PStr (lit "target the need")).
Proof.
  split.
  - apply (proj1 (proj2 (generate_scenarios_keys (Samples.steady Samples.partial_scenario)
             (lit "Toss") (lit "pay") Samples.partial_scenario eq_refl))
             (PList [PStr (lit "q0")])); reflexivity.
  - apply (proj2 (proj2 (generate_scenarios_keys (Samples.steady Samples.odd_scenario)
             (lit "Toss") (lit "pay") Samples.odd_scenario eq_refl))
             (PInt 5) (PStr (lit "target the need"))); reflexivity.
Defined.

(** The batch of two queries without the generative backend, drawn in
    submission order: undisturbed it collects both chat results; with a
    transport error injected into task 0 it stops at the first record,
    and the result of task 1, which is what it was, is never collected. *)
Lemma failed_task_aborts_batch_witness :
  let queries := [lit "q0"; lit "q1"] in
  let first := PDict (Engine.success_dict 0 (lit "GPT") (Some Samples.toss_answer)
                        (PDict (<[lit "mentioned" := PBool true]> Samples.denying_reply))) in
  let second := PDict (Engine.success_dict 1 (lit "GPT") (Some Samples.toss_answer)
                         (PDict (<[lit "mentioned" := PBool true]> Samples.denying_reply))) in
  let failed := PDict (Engine.error_dict 0 (lit "GPT") (Failure (lit "Connection error."))) in
  App.run_batch false Samples.calm (lit "Toss") queries (App.tasks queries)
    = ([first; second], None) /\
  App.task_result false (Samples.injected 0) (lit "Toss") queries (1, lit "GPT") = second /\
  App.run_batch false (Samples.injected 0) (lit "Toss") queries (App.tasks queries)
    = ([failed], Some (KeyError (lit "analysis"))) /\
  App.session_results
    (App.run_batch false (Samples.injected 0) (lit "Toss") queries (App.tasks queries)) = None.
Proof.
  intros queries first second failed.
  split; [reflexivity|]. split; [reflexivity|]. split; [reflexivity|].
  apply (failed_task_aborts_batch false (Samples.injected 0) (lit "Toss") queries
           (App.tasks queries) (0, lit "GPT")).
  - left. reflexivity.
  - eexists _, _. repeat split.
Defined.

(** ** More on the mention detector *)

Section DetectorMore.
Import Detector.

Lemma kept_lower_char_inv c : kept (lower_char c) -> kept c.
Proof.
  unfold kept, ascii_letter, ascii_digit, hangul_syllable, lower_char.
  destruct (in_range 65 90 c) eqn:E; [|tauto].
  apply in_range_spec in E. lia.
Qed.

Lemma normalize_lower s : normalize (lower s) = normalize s.
Proof.
  induction s as [|c s IH]; [reflexivity|]. unfold lower in *. cbn [List.map].
  destruct (decide (kept c)) as [H|H].
  - rewrite (normalize_cons_kept c s H).
    rewrite normalize_cons_kept by now apply kept_lower_char.
    now rewrite lower_char_idem, IH.
  - rewrite (normalize_cons_dropped c s H).
    rewrite normalize_cons_dropped; [exact IH|].
    intros K. now apply H, kept_lower_char_inv.
Qed.

Lemma lower_nil_iff s : lower s = [] <-> s = [].
Proof. unfold lower. destruct s; cbn; split; congruence. Qed.

Lemma check_visibility_logic_true_inv text brand_name :
  check_visibility_logic text brand_name = true ->
  exists t b, text = Some t /\ brand_name = Some b /\ t <> [] /\ b <> [] /\
              str_in (normalize b) (normalize t) = true.
Proof.
  unfold check_visibility_logic.
  destruct text as [[|x t]|], brand_name as [[|y b]|]; cbn; try discriminate.
  intros H. exists (x :: t), (y :: b). repeat split; try discriminate. exact H.
Qed.

Lemma substring_length (needle hay : str) :
  substring needle hay -> List.length needle <= List.length hay.
Proof. intros (pre & suf & ->). rewrite !length_app. lia. Qed.

Lemma substring_trans (a b c : str) :
  substring a b -> substring b c -> substring a c.
Proof.
  intros (p1 & s1 & ->) (p2 & s2 & ->). exists (p2 ++ p1), (s1 ++ s2).
  now rewrite <- !app_assoc.
Qed.

Lemma substring_extend (a b pre suf : str) :
  substring a b -> substring a (pre ++ b ++ suf).
Proof.
  intros (p & s & ->). exists (pre ++ p), (s ++ suf). now rewrite <- !app_assoc.
Qed.

(** X1. The normalized text is never longer than the text, and each of
    its characters is a lower-case ASCII letter, an ASCII digit or a
    Hangul syllable: no upper-case letter, space or punctuation is left. *)
Theorem normalize_alphabet (s : str) :
  List.length (normalize s) <= List.length s /\
  Forall (fun c => (97 <= c <= 122)%N \/ (48 <= c <= 57)%N \/
                   (0xAC00 <= c <= 0xD7A3)%N) (normalize s).
Proof.
  induction s as [|c s [IHl IHf]]; [split; [reflexivity|constructor]|].
  destruct (decide (kept c)) as [H|H].
  - rewrite (normalize_cons_kept c s H). split; [cbn; lia|].
    constructor; [|exact IHf].
    unfold kept, ascii_letter, ascii_digit, hangul_syllable in H.
    unfold lower_char. destruct (in_range 65 90 c) eqn:E.
    + apply in_range_spec in E. lia.
    + assert (~ (65 <= c <= 90)%N) by (rewrite <- in_range_spec; congruence). lia.
  - rewrite (normalize_cons_dropped c s H). split; [cbn; lia|exact IHf].
Qed.

(** X2. The verdict does not depend on the case of ASCII letters: two
    texts, and two brands, that are equal once lower-cased get the same
    answer. *)
Theorem check_visibility_logic_case_insensitive (T T' B B' : str) :
  lower T = lower T' -> lower B = lower B' ->
  check_visibility_logic (Some T) (Some B) =
  check_visibility_logic (Some T') (Some B').
Proof.
  intros HT HB.
  assert (normalize T = normalize T') as NT
    by (rewrite <- (normalize_lower T), HT; apply normalize_lower).
  assert (normalize B = normalize B') as NB
    by (rewrite <- (normalize_lower B), HB; apply normalize_lower).
  destruct T as [|x T]; destruct T' as [|x' T']; try discriminate HT;
    [reflexivity|].
  destruct B as [|y B]; destruct B' as [|y' B']; try discriminate HB;
    [reflexivity|].
  rewrite !check_visibility_logic_nonempty by discriminate.
  now rewrite NT, NB.
Qed.

(** X3. Characters that are not letters, digits or Hangul syllables do
    not count: dropping one from the text, or from the brand, leaves the
    verdict as it is, provided something is left of that argument. *)
Theorem check_visibility_logic_ignores_separators (c : N) (s1 s2 : str) :
  ~ kept c -> s1 ++ s2 <> [] ->
  (forall brand_name,
      check_visibility_logic (Some (s1 ++ c :: s2)) brand_name =
      check_visibility_logic (Some (s1 ++ s2)) brand_name) /\
  (forall text,
      check_visibility_logic text (Some (s1 ++ c :: s2)) =
      check_visibility_logic text (Some (s1 ++ s2))).
Proof.
  intros Hc Hne.
  assert (normalize (s1 ++ c :: s2) = normalize (s1 ++ s2)) as Hn.
  { rewrite !normalize_app. now rewrite (normalize_cons_dropped c s2 Hc). }
  assert (s1 ++ c :: s2 <> []) as Hne' by (destruct s1; discriminate).
  split.
  - intros [[|y b]|]; [| |].
    + destruct (s1 ++ c :: s2), (s1 ++ s2); reflexivity.
    + rewrite !check_visibility_logic_nonempty by (assumption || discriminate).
      now rewrite Hn.
    + destruct (s1 ++ c :: s2), (s1 ++ s2); reflexivity.
  - intros [[|x t]|]; [reflexivity| |reflexivity].
    rewrite !check_visibility_logic_nonempty by (assumption || discriminate).
    now rewrite Hn.
Qed.

(** X4. A literal occurrence is always found: a non-empty brand is
    detected in every text that contains it as it is written. *)
Theorem check_visibility_logic_literal (pre B suf : str) :
  B <> [] ->
  check_visibility_logic (Some (pre ++ B ++ suf)) (Some B) = true.
Proof.
  intros HB. rewrite check_visibility_logic_nonempty.
  - rewrite !normalize_app. apply str_in_spec. now eexists _, _.
  - destruct pre; [destruct B; [congruence|discriminate]|discriminate].
  - exact HB.
Qed.

(** X5. Detection is monotone in the text: a brand found in a text is
    found in every text that extends it on either side. *)
Theorem check_visibility_logic_monotone (pre T suf : str) brand_name :
  check_visibility_logic (Some T) brand_name = true ->
  check_visibility_logic (Some (pre ++ T ++ suf)) brand_name = true.
Proof.
  intros H. apply check_visibility_logic_true_inv in H
    as (t & b & [= <-] & -> & Ht & Hb & Hin).
  rewrite check_visibility_logic_nonempty.
  - rewrite !normalize_app. apply str_in_spec, substring_extend.
    now apply str_in_spec.
  - destruct pre; [destruct T; [congruence|discriminate]|discriminate].
  - exact Hb.
Qed.

(** X6. A brand whose normalization is longer than that of the text is
    never detected. *)
Theorem check_visibility_logic_too_long (text brand_name : str) :
  List.length (normalize text) < List.length (normalize brand_name) ->
  check_visibility_logic (Some text) (Some brand_name) = false.
Proof.
  intros Hlen.
  destruct (check_visibility_logic (Some text) (Some brand_name)) eqn:E; [|reflexivity].
  apply check_visibility_logic_true_inv in E
    as (t & b & [= <-] & [= <-] & _ & _ & Hin).
  apply str_in_spec, substring_length in Hin. lia.
Qed.

(** X7. Detection composes: when a brand [B'] is detected in the brand
    [B] and [B] is detected in a text, [B'] is detected in that text. *)
Theorem check_visibility_logic_transitive (T B B' : str) :
  check_visibility_logic (Some B) (Some B') = true ->
  check_visibility_logic (Some T) (Some B) = true ->
  check_visibility_logic (Some T) (Some B') = true.
Proof.
  intros H1 H2.
  apply check_visibility_logic_true_inv in H1
    as (? & ? & [= <-] & [= <-] & _ & HB' & Hin1).
  apply check_visibility_logic_true_inv in H2
    as (? & ? & [= <-] & [= <-] & HT & _ & Hin2).
  rewrite check_visibility_logic_nonempty by assumption.
  apply str_in_spec. eapply substring_trans; apply str_in_spec; eassumption.
Qed.

End DetectorMore.

(** ** More on the analyzer *)

Section EngineMore.
Import Detector Engine.

Lemma retag_success_dict i j model_type raw_text analysis_data :
  <[lit "q_idx" := PInt j]> (success_dict i model_type raw_text analysis_data) =
  success_dict j model_type raw_text analysis_data.
Proof. unfold success_dict. apply insert_insert_eq. Qed.

Lemma retag_error_dict i j model_type e :
  <[lit "q_idx" := PInt j]> (error_dict i model_type e) = error_dict j model_type e.
Proof. unfold error_dict. apply insert_insert_eq. Qed.

(** What the body of the [try] does with the question index: it only
    writes it into the success record. *)
Lemma analyze_task_body_q_idx gemini_available net model_type brand_name question i j :
  match analyze_task_body gemini_available net model_type brand_name question i with
  | Ok PNone =>
      analyze_task_body gemini_available net model_type brand_name question j = Ok PNone
  | Ok (PDict d) =>
      analyze_task_body gemini_available net model_type brand_name question j =
        Ok (PDict (<[lit "q_idx" := PInt j]> d))
  | Ok _ => False
  | Raise e =>
      analyze_task_body gemini_available net model_type brand_name question j = Raise e
  end.
Proof.
  unfold analyze_task_body, score.
  destruct (bool_decide (model_type = lit "GPT")).
  - destruct (chat_completion net question) as [raw|e]; cbn; [|reflexivity].
    destruct (scoring_json net brand_name raw _) as [data|e]; cbn; [|reflexivity].
    destruct data; cbn; first [reflexivity | now rewrite retag_success_dict].
  - destruct gemini_available; cbn; [|reflexivity].
    destruct (generate_content net question) as [raw|e]; cbn; [|reflexivity].
    destruct (scoring_json net brand_name (Some raw) _) as [data|e]; cbn; [|reflexivity].
    destruct data; cbn; first [reflexivity | now rewrite retag_success_dict].
Qed.

(** X8. Every record [analyze_task] returns, success or error, carries
    the question index and the engine name it was called with. *)
Theorem analyze_task_attributed gemini_available net model_type brand_name question q_idx res :
  analyze_task gemini_available net model_type brand_name question q_idx = PDict res ->
  res !! lit "q_idx" = Some (PInt q_idx) /\
  res !! lit "model_type" = Some (PStr model_type).
Proof.
  intros Hres.
  destruct (analyze_task_cases gemini_available net model_type brand_name question q_idx)
    as [(H & _)|[(raw & d & _ & _ & H)|(e & H)]]; rewrite Hres in H.
  - discriminate H.
  - injection H as ->. split; reflexivity.
  - injection H as ->. split; reflexivity.
Qed.

(** X9. The question index is only a tag: called with another index the
    task returns [None] where it returned [None], and otherwise the same
    record with [q_idx] replaced. *)
Theorem analyze_task_q_idx_frame gemini_available net model_type brand_name question i j :
  (analyze_task gemini_available net model_type brand_name question i = PNone ->
   analyze_task gemini_available net model_type brand_name question j = PNone) /\
  (forall res,
      analyze_task gemini_available net model_type brand_name question i = PDict res ->
      analyze_task gemini_available net model_type brand_name question j =
        PDict (<[lit "q_idx" := PInt j]> res)).
Proof.
  pose proof (analyze_task_body_q_idx gemini_available net model_type brand_name
                question i j) as H.
  unfold analyze_task.
  destruct (analyze_task_body gemini_available net model_type brand_name question i)
    as [v|e]; [destruct v; try contradiction|]; rewrite H.
  - split; [reflexivity|discriminate].
  - split; [discriminate|]. now intros res [= <-].
  - split; [discriminate|]. intros res [= <-]. now rewrite retag_error_dict.
Qed.

(** X10. The first failure is what the error record reports: when the
    answer call raises [e], or the answer is there and the scoring call
    raises [e], the result is the error record with [str(e)]. *)
Theorem analyze_task_reports_failure gemini_available net model_type brand_name question q_idx e :
  (model_type = lit "GPT" /\ chat_completion net question = Raise e) \/
  (model_type <> lit "GPT" /\ gemini_available = true /\
   generate_content net question = Raise e) \/
  (exists raw_text,
      answered gemini_available net model_type question raw_text /\
      scoring_json net brand_name raw_text
        (check_visibility_logic raw_text (Some brand_name)) = Raise e) ->
  analyze_task gemini_available net model_type brand_name question q_idx =
    PDict (error_dict q_idx model_type e) /\
  error_dict q_idx model_type e !! lit "error" = Some (PStr (exn_str e)).
Proof.
  intros H. split; [|reflexivity].
  unfold analyze_task, analyze_task_body.
  destruct H as [[Hm Hc]|[(Hm & Hg & Hc)|(raw & Ha & Hs)]].
  - rewrite bool_decide_eq_true_2 by exact Hm. now rewrite Hc.
  - rewrite bool_decide_eq_false_2 by exact Hm. now rewrite Hg, Hc.
  - destruct Ha as [[Hm Hc]|(Hm & Hg & s & Hc & ->)].
    + rewrite bool_decide_eq_true_2 by exact Hm. rewrite Hc. cbn.
      unfold score. now rewrite Hs.
    + rewrite bool_decide_eq_false_2 by exact Hm. rewrite Hg, Hc. cbn.
      unfold score. now rewrite Hs.
Qed.

(** X11. A scoring reply that parses to anything but an object (a list,
    a string, a number, [true], [null]) makes the task fail: the item
    assignment raises [TypeError] and the result is an error record. *)
Theorem analyze_task_rejects_non_object gemini_available net model_type brand_name question
    q_idx raw_text data :
  answered gemini_available net model_type question raw_text ->
  scoring_json net brand_name raw_text
    (check_visibility_logic raw_text (Some brand_name)) = Ok data ->
  (forall d, data <> PDict d) ->
  exists msg,
    analyze_task gemini_available net model_type brand_name question q_idx =
      PDict (error_dict q_idx model_type (TypeError msg)).
Proof.
  intros Ha Hs Hd.
  assert (exists msg, score net model_type brand_name q_idx raw_text = Raise (TypeError msg))
    as [msg Hscore].
  { unfold score. rewrite Hs. destruct data; cbn; eauto. now destruct (Hd d). }
  exists msg. unfold analyze_task, analyze_task_body.
  destruct Ha as [[Hm Hc]|(Hm & Hg & s & Hc & ->)].
  - rewrite bool_decide_eq_true_2 by exact Hm. rewrite Hc. cbn. now rewrite Hscore.
  - rewrite bool_decide_eq_false_2 by exact Hm. rewrite Hg, Hc. cbn. now rewrite Hscore.
Qed.

(** X12. Without an answer text there is no mention: when the answer is
    [None] or the empty string, or the brand is empty, a successful task
    stores [mentioned = False], whatever the scoring reply said. *)
Theorem analyze_task_blank_answer gemini_available net model_type brand_name question q_idx
    raw_text reply :
  text_truth raw_text = false \/ brand_name = [] ->
  answered gemini_available net model_type question raw_text ->
  scoring_json net brand_name raw_text false = Ok (PDict reply) ->
  analyze_task gemini_available net model_type brand_name question q_idx =
    PDict (success_dict q_idx model_type raw_text
             (PDict (<[lit "mentioned" := PBool false]> reply))).
Proof.
  intros Hblank Ha Hs.
  assert (check_visibility_logic raw_text (Some brand_name) = false) as Hv.
  { unfold check_visibility_logic. destruct Hblank as [-> | ->]; [reflexivity|].
    destruct (text_truth raw_text); reflexivity. }
  rewrite <- Hv in Hs.
  rewrite (analyze_task_success _ _ _ _ _ q_idx _ _ Ha Hs). now rewrite Hv.
Qed.

(** X13. [generate_scenarios] returns exactly when the reply parses to an
    object that has both keys [queries] and [strategy]. *)
Theorem generate_scenarios_returns_iff net brand_name service_keyword :
  (exists queries strategy,
      generate_scenarios net brand_name service_keyword = Ok (queries, strategy)) <->
  (exists data,
      scenario_json net brand_name service_keyword = Ok (PDict data) /\
      is_Some (data !! lit "queries") /\ is_Some (data !! lit "strategy")).
Proof.
  unfold generate_scenarios.
  destruct (scenario_json net brand_name service_keyword) as [data|e]; cbn.
  - destruct data; cbn;
      try (split; [by intros (? & ? & [=]) | by intros (? & [=] & _)]).
    destruct (d !! lit "queries") as [q|] eqn:Eq; cbn.
    + destruct (d !! lit "strategy") as [s|] eqn:Es; cbn.
      * split; [|intros _; now exists q, s]. intros _. exists d.
        split; [reflexivity|]. split; [now exists q | now exists s].
      * split; [intros (? & ? & [=])|].
        intros (d' & [= <-] & _ & [s Hs]). congruence.
    + split; [intros (? & ? & [=])|].
      intros (d' & [= <-] & [q Hq] & _). congruence.
  - split; [intros (? & ? & [=]) | intros (? & [=] & _)].
Qed.

(** X14. [generate_scenarios] has no handler of its own: an exception of
    the call or of [json.loads] leaves it unchanged, and a reply that is
    not an object raises [TypeError]. *)
Theorem generate_scenarios_propagates net brand_name service_keyword :
  (forall e, scenario_json net brand_name service_keyword = Raise e ->
             generate_scenarios net brand_name service_keyword = Raise e) /\
  (forall data, scenario_json net brand_name service_keyword = Ok data ->
                (forall d, data <> PDict d) ->
                exists msg,
                  generate_scenarios net brand_name service_keyword = Raise (TypeError msg)).
Proof.
  split.
  - intros e H. unfold generate_scenarios. now rewrite H.
  - intros data H Hd. unfold generate_scenarios. rewrite H.
    destruct data; cbn; eauto. now destruct (Hd d).
Qed.

End EngineMore.

(** ** More on the batch *)

Section BatchMore.
Import Engine App.

Lemma slot_lookup_ok n_slots i m :
  (- Z.of_nat n_slots <= i < Z.of_nat n_slots)%Z ->
  m = lit "GPT" \/ m = lit "Gemini" ->
  slot_lookup n_slots (PInt i) (PStr m) = Ok ().
Proof.
  intros Hi Hm. unfold slot_lookup.
  replace ((- Z.of_nat n_slots <=? i) && (i <? Z.of_nat n_slots))%Z with true
    by (symmetry; apply andb_true_iff; split; [apply Z.leb_le|apply Z.ltb_lt]; lia).
  destruct Hm as [-> | ->]; reflexivity.
Qed.

(** Drawing a success record, once its slot is found. *)
Lemma render_success_dict n_slots brand_in i m raw_text analysis :
  (- Z.of_nat n_slots <= i < Z.of_nat n_slots)%Z ->
  m = lit "GPT" \/ m = lit "Gemini" ->
  render n_slots brand_in (PDict (success_dict i m raw_text (PDict analysis))) =
    (_ ← getitem (PDict analysis) (lit "mentioned");
     _ ← getitem (PDict analysis) (lit "solution_fit");
     highlight (of_text raw_text) brand_in).
Proof.
  intros Hi Hm. unfold render.
  change (getitem (PDict (success_dict i m raw_text (PDict analysis))) (lit "q_idx"))
    with (Ok (A := pyval) (PInt i)).
  change (getitem (PDict (success_dict i m raw_text (PDict analysis))) (lit "model_type"))
    with (Ok (A := pyval) (PStr m)).
  change (getitem (PDict (success_dict i m raw_text (PDict analysis))) (lit "analysis"))
    with (Ok (A := pyval) (PDict analysis)).
  change (getitem (PDict (success_dict i m raw_text (PDict analysis))) (lit "raw"))
    with (Ok (A := pyval) (of_text raw_text)).
  cbn [mbind outcome_bind]. rewrite (slot_lookup_ok n_slots i m Hi Hm).
  cbn [mbind outcome_bind].
  destruct (getitem (PDict analysis) (lit "mentioned")); [|reflexivity].
  cbn [mbind outcome_bind].
  destruct (getitem (PDict analysis) (lit "solution_fit")); [|reflexivity].
  cbn [mbind outcome_bind].
  destruct (highlight (of_text raw_text) brand_in) as [[]|]; reflexivity.
Qed.

(** X15. A success record whose slot exists is drawn without an
    exception exactly when its analysis has the keys [mentioned] and
    [solution_fit] and, unless the brand is empty, its [raw] is a text;
    [fit_reason] and [summary] may be missing. *)
Theorem render_success_iff n_slots brand_in i m raw_text analysis :
  (- Z.of_nat n_slots <= i < Z.of_nat n_slots)%Z ->
  m = lit "GPT" \/ m = lit "Gemini" ->
  render n_slots brand_in (PDict (success_dict i m raw_text (PDict analysis))) = Ok () <->
  is_Some (analysis !! lit "mentioned") /\
  is_Some (analysis !! lit "solution_fit") /\
  (brand_in = [] \/ exists s, raw_text = Some s).
Proof.
  intros Hi Hm. rewrite (render_success_dict _ _ _ _ _ _ Hi Hm). cbn [getitem].
  destruct (analysis !! lit "mentioned") as [v|]; cbn [mbind outcome_bind].
  - destruct (analysis !! lit "solution_fit") as [w|]; cbn [mbind outcome_bind].
    + unfold highlight. destruct brand_in as [|c brand]; cbn [text_truth negb].
      * split; [eauto 6|reflexivity].
      * destruct raw_text as [s|]; cbn [of_text].
        -- split; [eauto 8|reflexivity].
        -- split; [discriminate|].
           intros (_ & _ & [H|[s H]]); discriminate H.
    + split; [discriminate|]. intros (_ & [w H] & _). discriminate H.
  - split; [discriminate|]. intros ([v H] & _). discriminate H.
Qed.

(** X16. What drawing a success record raises: [KeyError] on
    [solution_fit] when the scoring reply did not give that key, and
    [TypeError] from [highlight] when the chat reply had no content and
    the brand is not empty. *)
Theorem render_success_raises n_slots brand_in i m raw_text analysis :
  (- Z.of_nat n_slots <= i < Z.of_nat n_slots)%Z ->
  m = lit "GPT" \/ m = lit "Gemini" ->
  is_Some (analysis !! lit "mentioned") ->
  (analysis !! lit "solution_fit" = None ->
   render n_slots brand_in (PDict (success_dict i m raw_text (PDict analysis))) =
     Raise (KeyError (lit "solution_fit"))) /\
  (is_Some (analysis !! lit "solution_fit") -> raw_text = None -> brand_in <> [] ->
   render n_slots brand_in (PDict (success_dict i m raw_text (PDict analysis))) =
     Raise (TypeError (lit "expected string or bytes-like object, got 'NoneType'"))).
Proof.
  intros Hi Hm [v Hv]. rewrite (render_success_dict _ _ _ _ _ _ Hi Hm). cbn [getitem].
  rewrite Hv. cbn [mbind outcome_bind]. split.
  - intros ->. reflexivity.
  - intros [w ->] -> Hb. cbn [mbind outcome_bind].
    destruct brand_in; [congruence|reflexivity].
Qed.

Lemma collect_snd_None n_slots brand_in completed :
  forall all_res,
    (collect n_slots brand_in all_res completed).2 = None ->
    Forall (fun res => truth res = true -> render n_slots brand_in res = Ok ()) completed.
Proof.
  induction completed as [|r rest IH]; intros all_res H; [constructor|].
  cbn [collect] in H. destruct (truth r) eqn:Et.
  - destruct (render n_slots brand_in r) as [[]|e] eqn:Er; [|discriminate H].
    constructor; [intros _; exact Er | eapply IH, H].
  - constructor; [intros Et'; congruence | eapply IH, H].
Qed.

Lemma collect_prefix n_slots brand_in completed :
  forall all_res,
    exists more rest,
      (collect n_slots brand_in all_res completed).1 = all_res ++ more /\
      filter (fun res => truth res = true) completed = more ++ rest.
Proof.
  induction completed as [|r rest IH]; intros all_res; cbn [collect].
  - exists [], []. now rewrite app_nil_r.
  - destruct (truth r) eqn:Et.
    + rewrite filter_cons_True by exact Et.
      destruct (render n_slots brand_in r).
      * destruct (IH (all_res ++ [r])) as (more & rest' & H1 & H2).
        exists (r :: more), rest'. rewrite H1, H2, <- app_assoc. auto.
      * exists [r], (filter (fun res => truth res = true) rest). auto.
    + rewrite filter_cons_False by (rewrite Et; discriminate). apply IH.
Qed.

(** X17. The loop reaches [st.session_state.results = all_res] exactly
    when every future that holds a record can be drawn; [all_res] is then
    the list of those records in completion order. *)
Theorem run_batch_finishes_iff gemini_available net brand_in queries completion :
  let results := task_result gemini_available net brand_in queries <$> completion in
  let run := run_batch gemini_available net brand_in queries completion in
  (is_Some (session_results run) <->
   Forall (fun res => truth res = true ->
                      render (List.length queries) brand_in res = Ok ()) results) /\
  (forall all_res, session_results run = Some all_res ->
                   all_res = filter (fun res => truth res = true) results).
Proof.
  intros results run. subst run. unfold run_batch, session_results. fold results.
  split.
  - split.
    + intros [rs H].
      destruct (collect (List.length queries) brand_in [] results).2 eqn:E;
        [discriminate H|]. eapply collect_snd_None, E.
    + intros HF. rewrite (collect_all _ _ _ [] HF). cbn. eauto.
  - intros rs H.
    destruct (collect (List.length queries) brand_in [] results).2 eqn:E;
      [discriminate H|].
    apply collect_snd_None in E. rewrite (collect_all _ _ _ [] E) in H.
    cbn in H. congruence.
Qed.

(** X19. Whether the loop finishes or not, [all_res] holds records only,
    never [None], and is an initial part of the records in the order the
    futures completed. *)
Theorem run_batch_collects_prefix gemini_available net brand_in queries completion :
  let results := task_result gemini_available net brand_in queries <$> completion in
  let run := run_batch gemini_available net brand_in queries completion in
  Forall (fun res => res <> PNone) run.1 /\
  exists rest, filter (fun res => truth res = true) results = run.1 ++ rest.
Proof.
  intros results run. subst run. unfold run_batch. fold results.
  destruct (collect_prefix (List.length queries) brand_in results [])
    as (more & rest & H1 & H2).
  cbn [app] in H1. rewrite H1. split; [|eauto].
  assert (Forall (fun res => truth res = true) (more ++ rest)) as HF.
  { rewrite <- H2. apply Forall_forall. intros x Hx.
    now apply list_elem_of_filter in Hx as [Hx _]. }
  apply Forall_app in HF as [HF _].
  eapply Forall_impl; [exact HF|]. intros x Hx ->. discriminate Hx.
Qed.

(** X20. Only the last query is ever sent: the comprehension reads the
    leftover [q], so two query lists of the same length that end with the
    same query give the same batch, whatever the other queries are. *)
Theorem run_batch_last_query gemini_available net brand_in (queries queries' : list str)
    completion :
  List.length queries = List.length queries' ->
  List.last queries [] = List.last queries' [] ->
  run_batch gemini_available net brand_in queries completion =
  run_batch gemini_available net brand_in queries' completion.
Proof.
  intros Hlen Hlast. unfold run_batch. rewrite Hlen. f_equal.
  apply list_fmap_ext. intros _ t _. unfold task_result, leftover_q. now rewrite Hlast.
Qed.

End BatchMore.

(** ** Properties of the markup *)

Section MarkupFacts.
Import Markup.

Lemma matches_at_length ci (brand text : str) :
  matches_at ci brand text = true -> List.length brand <= List.length text.
Proof.
  revert text. induction brand as [|p brand IH]; intros [|c text]; cbn;
    try (intros; lia); try discriminate.
  intros H. apply andb_true_iff in H as [_ H]. apply IH in H. lia.
Qed.

Lemma matches_at_take ci (brand text : str) :
  matches_at ci brand text = true ->
  matches_at ci brand (take (List.length brand) text) = true.
Proof.
  revert text. induction brand as [|p brand IH]; intros [|c text]; cbn;
    try reflexivity; try discriminate.
  intros H. apply andb_true_iff in H as [H1 H2]. rewrite H1. now apply IH.
Qed.

Lemma plain_cons b (piece : str) pieces : plain ((b, piece) :: pieces) = piece ++ plain pieces.
Proof. reflexivity. Qed.

Lemma marked_cons_false (piece : str) pieces :
  marked ((false, piece) :: pieces) = piece ++ marked pieces.
Proof. reflexivity. Qed.

Lemma marked_cons_true (piece : str) pieces :
  marked ((true, piece) :: pieces) =
  mark_open ++ piece ++ mark_close ++ marked pieces.
Proof. unfold marked. cbn. now rewrite <- !app_assoc. Qed.

(** The scan as a cut of the text. *)
Lemma sub_marks_pieces ci brand fuel :
  forall text,
    exists pieces,
      plain pieces = text /\
      sub_marks ci brand fuel text = marked pieces /\
      Forall (fun piece : bool * str =>
                piece.1 = true ->
                matches_at ci brand piece.2 = true /\
                List.length piece.2 = List.length brand) pieces.
Proof.
  induction fuel as [|fuel IH]; intros text; cbn [sub_marks].
  - exists [(false, text)]. repeat split.
    + unfold plain. cbn. apply app_nil_r.
    + unfold marked. cbn. now rewrite app_nil_r.
    + constructor; [discriminate|constructor].
  - destruct text as [|c rest]; [exists []; repeat split; constructor|].
    destruct (matches_at ci brand (c :: rest)) eqn:E.
    + destruct (IH (drop (List.length brand) (c :: rest))) as (pieces & Hp & Hm & HF).
      exists ((true, take (List.length brand) (c :: rest)) :: pieces). repeat split.
      * rewrite plain_cons, Hp. apply take_drop.
      * now rewrite marked_cons_true, Hm.
      * constructor; [|exact HF]. intros _. cbn [snd]. split.
        -- now apply matches_at_take.
        -- rewrite length_take. apply matches_at_length in E. lia.
    + destruct (IH rest) as (pieces & Hp & Hm & HF).
      exists ((false, [c]) :: pieces). repeat split.
      * now rewrite plain_cons, Hp.
      * now rewrite marked_cons_false, Hm.
      * constructor; [discriminate|exact HF].
Qed.

Lemma sub_marks_marks ci brand fuel :
  brand <> [] ->
  forall text pre occ,
    List.length text <= fuel ->
    text = pre ++ occ -> matches_at ci brand occ = true ->
    exists pieces,
      plain pieces = text /\
      sub_marks ci brand fuel text = marked pieces /\
      Exists (fun piece : bool * str => piece.1 = true) pieces.
Proof.
  intros Hb. induction fuel as [|fuel IH]; intros text pre occ Hlen Htext Hocc.
  - destruct text; [|cbn in Hlen; lia].
    symmetry in Htext. apply app_eq_nil in Htext as [_ ->].
    destruct brand; [congruence|discriminate Hocc].
  - cbn [sub_marks]. destruct text as [|c rest].
    + symmetry in Htext. apply app_eq_nil in Htext as [_ ->].
      destruct brand; [congruence|discriminate Hocc].
    + destruct (matches_at ci brand (c :: rest)) eqn:E.
      * destruct (sub_marks_pieces ci brand fuel (drop (List.length brand) (c :: rest)))
          as (pieces & Hp & Hm & _).
        exists ((true, take (List.length brand) (c :: rest)) :: pieces). repeat split.
        -- rewrite plain_cons, Hp. apply take_drop.
        -- now rewrite marked_cons_true, Hm.
        -- now left.
      * destruct pre as [|c' pre]; cbn [app] in Htext.
        -- subst occ. congruence.
        -- injection Htext as <- Hrest.
           destruct (IH rest pre occ) as (pieces & Hp & Hm & HE);
             [cbn in Hlen; lia|exact Hrest|exact Hocc|].
           exists ((false, [c]) :: pieces). repeat split.
           ++ now rewrite plain_cons, Hp.
           ++ now rewrite marked_cons_false, Hm.
           ++ now right.
Qed.

(** X21. [highlight] never changes a character of the answer: the text
    can be cut into pieces so that the result is the same pieces, some of
    them wrapped in the mark tags, and every wrapped piece is a match of
    the brand, as long as the brand; with an empty brand the text is
    returned as it is. *)
Theorem highlight_keeps_text ci (text brand : str) :
  highlight ci text [] = text /\
  exists pieces,
    plain pieces = text /\
    highlight ci text brand = marked pieces /\
    Forall (fun piece : bool * str =>
              piece.1 = true ->
              matches_at ci brand piece.2 = true /\
              List.length piece.2 = List.length brand) pieces.
Proof.
  split; [reflexivity|].
  unfold highlight. destruct (negb (text_truth (Some brand))).
  - exists [(false, text)]. repeat split.
    + unfold plain. cbn. apply app_nil_r.
    + unfold marked. cbn. now rewrite app_nil_r.
    + constructor; [discriminate|constructor].
  - apply sub_marks_pieces.
Qed.

(** X22. When a character matches itself under [re.IGNORECASE], a
    non-empty brand that occurs in the text as it is written gets at
    least one piece of the text marked. *)
Theorem highlight_marks_occurrence ci (pre brand suf : str) :
  (forall c, ci c c = true) -> brand <> [] ->
  exists pieces,
    plain pieces = pre ++ brand ++ suf /\
    highlight ci (pre ++ brand ++ suf) brand = marked pieces /\
    Exists (fun piece : bool * str => piece.1 = true) pieces.
Proof.
  intros Hrefl Hb. unfold highlight.
  destruct brand as [|p brand'] eqn:Eb; [congruence|]. cbn [text_truth negb]. rewrite <- Eb.
  apply (sub_marks_marks ci brand _ ltac:(congruence) _ pre (brand ++ suf));
    [reflexivity|now subst|].
  clear -Hrefl. induction brand as [|q brand IH]; [reflexivity|].
  cbn. now rewrite Hrefl, IH.
Qed.

End MarkupFacts.

(** ** Properties of the inquiry store *)

Section StoreFacts.
Import Store.

Lemma largest_id_ge_sequence t : (sequence t <= largest_id t)%Z.
Proof.
  unfold largest_id. induction (rows t) as [|r l IH]; cbn; lia.
Qed.

Lemma largest_id_ge_ids t : Forall (fun r => (id r <= largest_id t)%Z) (rows t).
Proof.
  unfold largest_id. induction (rows t) as [|r l IH]; cbn; constructor; [lia|].
  eapply Forall_impl; [exact IH|]. cbn. intros; lia.
Qed.

Lemma save_inquiry_ok_inv io now db b k n c m db' :
  save_inquiry io now db b k n c m = Ok db' ->
  exists t,
    io = None /\ db = Some t /\
    forallb bindable [now; b; k; n; c; m] = true /\
    (largest_id t < max_rowid)%Z /\
    db' = Some {| rows := rows t ++
                    [ {| id := largest_id t + 1; timestamp := now; brand := b;
                         keyword := k; name := n; contact := c; message := m |} ];
                  sequence := largest_id t + 1 |}.
Proof.
  unfold save_inquiry. destruct io as [e|]; [discriminate|].
  destruct db as [t|]; [|discriminate].
  destruct (forallb bindable [now; b; k; n; c; m]) eqn:Eb; [|discriminate].
  destruct (largest_id t <? max_rowid)%Z eqn:El; [|discriminate].
  intros [= <-]. exists t. repeat split. now apply Z.ltb_lt.
Qed.

(** X23. A [save_inquiry] that returns has added exactly one row behind
    the rows that were there, which are unchanged; the row holds the five
    arguments and the timestamp as they were passed, and its id is larger
    than every id the table holds or ever gave. *)
Theorem save_inquiry_appends io now db b k n c m db' :
  save_inquiry io now db b k n c m = Ok db' ->
  exists r,
    stored db' = stored db ++ [r] /\
    entry r = (now, (b, k, n, c, m)) /\
    Forall (fun r' => (id r' < id r)%Z) (stored db) /\
    (forall t, db = Some t -> (sequence t < id r)%Z).
Proof.
  intros H. apply save_inquiry_ok_inv in H as (t & _ & -> & _ & _ & ->).
  eexists. split; [reflexivity|]. split; [reflexivity|]. cbn. split.
  - eapply Forall_impl; [apply largest_id_ge_ids|]. cbn. intros; lia.
  - intros t' [= <-]. pose proof (largest_id_ge_sequence t). lia.
Qed.

Lemma foldr_max_bounded (s : Z) (l : list Z) :
  Forall (fun x => (x <= s)%Z) l -> foldr Z.max s l = s.
Proof. induction 1 as [|x l Hx _ IH]; cbn; [reflexivity|]. rewrite IH. lia. Qed.

(** Tables whose ids are 1 to [k], with [k] as the largest id given. *)
Lemma save_all_numbered (calls : list (access * (str * (str * str * str * str * str)))) :
  forall t k db',
    id <$> rows t = Z.of_nat <$> seq 1 k -> sequence t = Z.of_nat k ->
    save_all (Some t) calls = Some db' ->
    exists t',
      db' = Some t' /\
      id <$> rows t' = Z.of_nat <$> seq 1 (k + List.length calls) /\
      sequence t' = Z.of_nat (k + List.length calls) /\
      entry <$> rows t' = (entry <$> rows t) ++ (snd <$> calls).
Proof.
  induction calls as [|[io [now [[[[b kw] n] c] m]]] rest IH]; intros t k db' Hids Hseq H.
  - cbn in H. injection H as <-. exists t. cbn [fmap list_fmap].
    rewrite Nat.add_0_r, app_nil_r. auto.
  - cbn [save_all] in H.
    destruct (save_inquiry io now (Some t) b kw n c m) as [db1|e] eqn:E; [|discriminate H].
    apply save_inquiry_ok_inv in E as (t0 & _ & [= <-] & _ & _ & ->).
    assert (largest_id t = Z.of_nat k) as Hl.
    { unfold largest_id. rewrite Hids, Hseq. apply foldr_max_bounded.
      apply Forall_forall. intros x Hx.
      apply list_elem_of_fmap in Hx as (j & -> & Hj). apply elem_of_seq in Hj. lia. }
    rewrite Hl in H.
    apply (IH _ (S k)) in H as (t' & -> & Hids' & Hseq' & Hent).
    + exists t'. split; [reflexivity|]. cbn [List.length].
      replace (k + S (List.length rest)) with (S k + List.length rest) by lia.
      split; [exact Hids'|]. split; [exact Hseq'|].
      rewrite Hent. cbn [rows]. rewrite fmap_app, <- app_assoc. reflexivity.
    + cbn [rows]. rewrite fmap_app, Hids. cbn [fmap list_fmap id].
      replace (S k) with (k + 1) by lia. rewrite seq_app, fmap_app. cbn.
      do 2 f_equal. lia.
    + cbn [sequence]. lia.
Qed.

(** X25. Round trip from a new file: after an [_init_db] that returned
    and any number of [save_inquiry] calls that all returned, the table
    holds one row per call, in call order, with ids 1, 2, ..., and each
    row has exactly the timestamp and the five values of its call. *)
Theorem save_all_round_trip io
    (calls : list (access * (str * (str * str * str * str * str)))) db0 db' :
  _init_db io None = Ok db0 ->
  save_all db0 calls = Some db' ->
  entry <$> stored db' = snd <$> calls /\
  id <$> stored db' = Z.of_nat <$> seq 1 (List.length calls).
Proof.
  intros H0 H. unfold _init_db in H0. destruct io; [discriminate H0|].
  injection H0 as <-.
  apply (save_all_numbered calls _ 0) in H as (t' & -> & Hids & _ & Hent);
    [|reflexivity|reflexivity].
  split; [exact Hent|exact Hids].
Qed.

(** X26. The form: with an empty name or an empty contact nothing runs
    and the database is untouched; otherwise a submission that ends
    without an exception has stored exactly one new row, holding the
    brand and keyword of the session and the name, contact and message
    of the form, also when the table did not exist before. *)
Theorem submit_inquiry_stores openai_client google_key gemini_model io_init io_save now db
    target_brand target_keyword n c msg :
  (n = [] \/ c = [] ->
   submit_inquiry openai_client google_key gemini_model io_init io_save now db
     target_brand target_keyword n c msg = (db, None)) /\
  (forall db',
      n <> [] -> c <> [] ->
      submit_inquiry openai_client google_key gemini_model io_init io_save now db
        target_brand target_keyword n c msg = (db', None) ->
      exists r,
        stored db' = stored db ++ [r] /\
        entry r = (now, (target_brand, target_keyword, n, c, msg))).
Proof.
  unfold submit_inquiry. split.
  - intros [-> | ->]; [reflexivity|]. destruct n; reflexivity.
  - intros db' Hn Hc. destruct n as [|x n]; [congruence|]. destruct c as [|y c]; [congruence|].
    cbn [text_truth andb].
    destruct (GEOAnalyzer_init openai_client google_key gemini_model io_init db)
      as [[ga db1]|e] eqn:Ei; [|discriminate].
    assert (db1 = create_table db) as ->.
    { unfold GEOAnalyzer_init, _init_db in Ei. destruct openai_client; [|discriminate Ei].
      cbn in Ei. destruct (text_truth google_key); cbn in Ei;
        [destruct gemini_model; [|discriminate Ei]|]; cbn in Ei;
        (destruct io_init; [discriminate Ei|]); cbn in Ei; congruence. }
    destruct (save_inquiry io_save now (create_table db) target_brand target_keyword
                (x :: n) (y :: c) msg) as [db2|e] eqn:Es; [|discriminate].
    intros [= <-]. apply save_inquiry_ok_inv in Es as (t & _ & Ht & _ & _ & ->).
    eexists. split.
    + cbn [stored rows]. f_equal.
      destruct db as [t0|]; cbn in Ht; injection Ht as <-; reflexivity.
    + reflexivity.
Qed.

End StoreFacts.

(** ** Instances *)

Lemma check_visibility_logic_case_insensitive_witness :
  Detector.check_visibility_logic (Some (lit "TOSS app")) (Some (lit "Toss")) =
  Detector.check_visibility_logic (Some (lit "toss APP")) (Some (lit "tOSS")).
Proof.
  apply (check_visibility_logic_case_insensitive
           (lit "TOSS app") (lit "toss APP") (lit "Toss") (lit "tOSS")); reflexivity.
Defined.

Lemma check_visibility_logic_ignores_separators_witness :
  (forall brand_name,
      Detector.check_visibility_logic (Some (lit "to" ++ 32%N :: lit "ss")) brand_name =
      Detector.check_visibility_logic (Some (lit "to" ++ lit "ss")) brand_name) /\
  (forall text,
      Detector.check_visibility_logic text (Some (lit "to" ++ 32%N :: lit "ss")) =
      Detector.check_visibility_logic text (Some (lit "to" ++ lit "ss"))).
Proof.
  apply (check_visibility_logic_ignores_separators 32%N (lit "to") (lit "ss")).
  - apply (bool_decide_unpack _). vm_compute. exact I.
  - vm_compute. discriminate.
Defined.

Lemma check_visibility_logic_literal_witness :
  Detector.check_visibility_logic (Some (lit "use " ++ lit "Toss" ++ lit " now"))
    (Some (lit "Toss")) = true.
Proof.
  apply (check_visibility_logic_literal (lit "use ") (lit "Toss") (lit " now")).
  vm_compute. discriminate.
Defined.

Lemma check_visibility_logic_monotone_witness :
  Detector.check_visibility_logic (Some (lit "A: " ++ Samples.toss_answer ++ lit "!"))
    (Some (lit "Toss")) = true.
Proof.
  apply (check_visibility_logic_monotone (lit "A: ") Samples.toss_answer (lit "!")
           (Some (lit "Toss"))).
  reflexivity.
Defined.

Lemma check_visibility_logic_too_long_witness :
  Detector.check_visibility_logic (Some (lit "To")) (Some (lit "Toss")) = false.
Proof.
  apply (check_visibility_logic_too_long (lit "To") (lit "Toss")). vm_compute. lia.
Defined.

Lemma check_visibility_logic_transitive_witness :
  Detector.check_visibility_logic (Some Samples.toss_answer) (Some (lit "os")) = true.
Proof.
  apply (check_visibility_logic_transitive Samples.toss_answer (lit "TOSS") (lit "os"));
    reflexivity.
Defined.

Lemma analyze_task_attributed_witness :
  Engine.error_dict 7 (lit "GPT") (Failure (lit "Connection error.")) !! lit "q_idx"
    = Some (PInt 7) /\
  Engine.error_dict 7 (lit "GPT") (Failure (lit "Connection error.")) !! lit "model_type"
    = Some (PStr (lit "GPT")).
Proof.
  apply (analyze_task_attributed false Samples.broken (lit "GPT") (lit "Toss") (lit "q0") 7%Z).
  reflexivity.
Defined.

Lemma analyze_task_q_idx_frame_witness :
  Engine.analyze_task false Cases.silent (lit "Gemini") (lit "Toss") (lit "q0") 5 = PNone /\
  Engine.analyze_task false Samples.broken (lit "GPT") (lit "Toss") (lit "q0") 5 =
    PDict (<[lit "q_idx" := PInt 5]>
             (Engine.error_dict 0 (lit "GPT") (Failure (lit "Connection error.")))).
Proof.
  split.
  - apply (proj1 (analyze_task_q_idx_frame false Cases.silent (lit "Gemini") (lit "Toss")
                    (lit "q0") 0%Z 5%Z)).
    reflexivity.
  - apply (proj2 (analyze_task_q_idx_frame false Samples.broken (lit "GPT") (lit "Toss")
                    (lit "q0") 0%Z 5%Z)).
    reflexivity.
Defined.

Lemma analyze_task_reports_failure_witness :
  Engine.analyze_task false Samples.broken (lit "GPT") (lit "Toss") (lit "q0") 3 =
    PDict (Engine.error_dict 3 (lit "GPT") (Failure (lit "Connection error."))) /\
  Engine.error_dict 3 (lit "GPT") (Failure (lit "Connection error.")) !! lit "error"
    = Some (PStr (exn_str (Failure (lit "Connection error.")))).
Proof.
  apply (analyze_task_reports_failure false Samples.broken (lit "GPT") (lit "Toss")
           (lit "q0") 3%Z (Failure (lit "Connection error."))).
  left. split; reflexivity.
Defined.

Lemma analyze_task_rejects_non_object_witness :
  exists msg,
    Engine.analyze_task false Cases.listy (lit "GPT") (lit "Toss") (lit "q0") 0 =
      PDict (Engine.error_dict 0 (lit "GPT") (TypeError msg)).
Proof.
  apply (analyze_task_rejects_non_object false Cases.listy (lit "GPT") (lit "Toss")
           (lit "q0") 0%Z (Some Samples.toss_answer) (PList [])).
  - left. split; reflexivity.
  - reflexivity.
  - discriminate.
Defined.

Lemma analyze_task_blank_answer_witness :
  Engine.analyze_task false Cases.silent (lit "GPT") (lit "Toss") (lit "q0") 0 =
    PDict (Engine.success_dict 0 (lit "GPT") None
             (PDict (<[lit "mentioned" := PBool false]> Samples.denying_reply))).
Proof.
  apply (analyze_task_blank_answer false Cases.silent (lit "GPT") (lit "Toss") (lit "q0")
           0%Z None Samples.denying_reply).
  - left. reflexivity.
  - left. split; reflexivity.
  - reflexivity.
Defined.

Lemma generate_scenarios_propagates_witness :
  Engine.generate_scenarios Cases.silent (lit "Toss") (lit "pay")
    = Raise (Failure (lit "Request timed out.")) /\
  exists msg,
    Engine.generate_scenarios Cases.listy (lit "Toss") (lit "pay") = Raise (TypeError msg).
Proof.
  split.
  - apply (proj1 (generate_scenarios_propagates Cases.silent (lit "Toss") (lit "pay"))).
    reflexivity.
  - apply (proj2 (generate_scenarios_propagates Cases.listy (lit "Toss") (lit "pay"))
             (PList [])); [reflexivity|discriminate].
Defined.

Lemma render_success_iff_witness :
  App.render 2 (lit "Toss")
    (PDict (Engine.success_dict 1 (lit "Gemini") (Some Samples.toss_answer)
              (PDict Samples.denying_reply))) = Ok () <->
  is_Some (Samples.denying_reply !! lit "mentioned") /\
  is_Some (Samples.denying_reply !! lit "solution_fit") /\
  (lit "Toss" = [] \/ exists s, Some Samples.toss_answer = Some s).
Proof.
  apply (render_success_iff 2 (lit "Toss") 1%Z (lit "Gemini") (Some Samples.toss_answer)
           Samples.denying_reply); [lia|right; reflexivity].
Defined.

Lemma render_success_raises_witness :
  App.render 2 (lit "Toss")
    (PDict (Engine.success_dict 0 (lit "GPT") (Some Samples.toss_answer)
              (PDict Cases.bare_reply))) = Raise (KeyError (lit "solution_fit")) /\
  App.render 2 (lit "Toss")
    (PDict (Engine.success_dict 0 (lit "GPT") None (PDict Samples.denying_reply)))
    = Raise (TypeError (lit "expected string or bytes-like object, got 'NoneType'")).
Proof.
  split.
  - apply (proj1 (render_success_raises 2 (lit "Toss") 0%Z (lit "GPT")
                    (Some Samples.toss_answer) Cases.bare_reply
                    ltac:(lia) (or_introl eq_refl) (ex_intro _ (PBool true) eq_refl))).
    reflexivity.
  - apply (proj2 (render_success_raises 2 (lit "Toss") 0%Z (lit "GPT")
                    None Samples.denying_reply
                    ltac:(lia) (or_introl eq_refl) (ex_intro _ (PBool false) eq_refl))).
    + exists (PInt 11). reflexivity.
    + reflexivity.
    + vm_compute. discriminate.
Defined.

Lemma run_batch_complete_witness :
  exists collected,
    App.run_batch true Samples.calm (lit "Toss") [lit "q0"; lit "q1"]
      (App.tasks [lit "q0"; lit "q1"]) = (collected, None) /\
    List.length collected = List.length [lit "q0"; lit "q1"] * App.available_engines true /\
    NoDup (App.attribution <$> collected) /\
    (true = false ->
     Forall (fun res => exists i, App.attribution res = Some (PStr (lit "GPT"), PInt i))
       collected).
Proof.
  apply (run_batch_complete true Samples.calm (lit "Toss") [lit "q0"; lit "q1"]
           (App.tasks [lit "q0"; lit "q1"])).
  - reflexivity.
  - intros t Ht _. cbn in Ht.
    destruct Ht as [<-|[<-|[<-|[<-|[]]]]]; reflexivity.
Defined.

Lemma run_batch_last_query_witness :
  App.run_batch false (Samples.injected 0) (lit "Toss") [lit "first"; lit "last"]
    (App.tasks [lit "q0"; lit "q1"]) =
  App.run_batch false (Samples.injected 0) (lit "Toss") [lit "other"; lit "last"]
    (App.tasks [lit "q0"; lit "q1"]).
Proof.
  apply (run_batch_last_query false (Samples.injected 0) (lit "Toss")
           [lit "first"; lit "last"] [lit "other"; lit "last"]); reflexivity.
Defined.

Lemma highlight_marks_occurrence_witness :
  exists pieces,
    Markup.plain pieces = lit "use " ++ lit "Toss" ++ lit " now" /\
    Markup.highlight Cases.ascii_ci (lit "use " ++ lit "Toss" ++ lit " now") (lit "Toss")
      = Markup.marked pieces /\
    Exists (fun piece : bool * str => piece.1 = true) pieces.
Proof.
  apply (highlight_marks_occurrence Cases.ascii_ci (lit "use ") (lit "Toss") (lit " now")).
  - intros c. apply N.eqb_refl.
  - vm_compute. discriminate.
Defined.

Lemma save_inquiry_appends_witness :
  exists r,
    Store.stored (Some {| Store.rows :=
                            [ {| Store.id := 1; Store.timestamp := Cases.first_entry.1;
                                 Store.brand := lit "Toss"; Store.keyword := lit "pay";
                                 Store.name := lit "Kim";
                                 Store.contact := lit "kim@example.com";
                                 Store.message := lit "call me" |} ];
                          Store.sequence := 1 |})
      = Store.stored (Store.create_table None) ++ [r] /\
    Store.entry r = (Cases.first_entry.1,
                     (lit "Toss", lit "pay", lit "Kim", lit "kim@example.com", lit "call me")) /\
    Forall (fun r' => (Store.id r' < Store.id r)%Z) (Store.stored (Store.create_table None)) /\
    (forall t, Store.create_table None = Some t -> (Store.sequence t < Store.id r)%Z).
Proof.
  apply (save_inquiry_appends None Cases.first_entry.1 (Store.create_table None)
           (lit "Toss") (lit "pay") (lit "Kim") (lit "kim@example.com") (lit "call me")).
  reflexivity.
Defined.

Lemma save_all_round_trip_witness :
  exists db',
    Store.save_all (Store.create_table None)
      [(None, Cases.first_entry); (None, Cases.second_entry)] = Some db' /\
    Store.entry <$> Store.stored db' = [Cases.first_entry; Cases.second_entry] /\
    Store.id <$> Store.stored db' = [1; 2]%Z.
Proof.
  eexists. split; [reflexivity|].
  apply (save_all_round_trip None [(None, Cases.first_entry); (None, Cases.second_entry)]
           (Store.create_table None)); reflexivity.
Defined.

Lemma submit_inquiry_stores_witness :
  (Store.submit_inquiry (Ok ()) None (Ok ()) None None Cases.first_entry.1 None
     (lit "Toss") (lit "pay") [] (lit "kim@example.com") (lit "call me") = (None, None)) /\
  exists r,
    Store.stored
      (Store.submit_inquiry (Ok ()) None (Ok ()) None None Cases.first_entry.1 None
         (lit "Toss") (lit "pay") (lit "Kim") (lit "kim@example.com") (lit "call me")).1
      = Store.stored None ++ [r] /\
    Store.entry r = Cases.first_entry.
Proof.
  split.
  - apply (proj1 (submit_inquiry_stores (Ok ()) None (Ok ()) None None Cases.first_entry.1 None
                    (lit "Toss") (lit "pay") [] (lit "kim@example.com") (lit "call me"))).
    left. reflexivity.
  - apply (proj2 (submit_inquiry_stores (Ok ()) None (Ok ()) None None Cases.first_entry.1 None
                    (lit "Toss") (lit "pay") (lit "Kim") (lit "kim@example.com")
                    (lit "call me"))).
    + vm_compute. discriminate.
    + vm_compute. discriminate.
    + reflexivity.
Defined.

